(** * ts-dns, package [conf]: a shallow embedding of cmd/conf/conf.go

    The configuration loader of ts-dns turns a decoded TOML file into an
    [inbound.Handler]: upstream callers per routing group, the hosts
    readers, the DNS cache and the validation of the mandatory groups.

    Conventions of the embedding:
    - Go strings are byte strings; they are modelled by [String.string]
      (a list of 8-bit [ascii] characters).
    - A Go [int] (64 bit) is a [Z]; [time.Duration] arithmetic wraps modulo
      2^64 and is written out with [wrap64].
    - Go maps are [gmap]s; a [range] over a map visits [map_to_list].
    - A function that can return an [error] or panic returns a [Res]:
      [Ok], [Err] (a non-nil [error] value) or [Panic] (a Go run-time panic,
      such as a nil pointer dereference).
    - Everything that reads files or talks to the kernel (TOML decoding,
      reading the gfwlist, the CN-IP list and hosts files, creating an
      ipset) is an input of the model, collected in [Env]. *)

From Stdlib Require Import Ascii.
From stdpp Require Import base gmap strings list.

Open Scope Z_scope.

(* ------------------------------------------------------------------ *)
(** ** Go standard library: [strings] *)

Module gostrings.

(** [strings.HasSuffix]: [len(s) >= len(suffix) && s[len(s)-len(suffix):] == suffix]. *)
Definition HasSuffix (s suffix : string) : bool :=
  (String.length suffix <=? String.length s)%nat &&
  String.eqb (String.substring (String.length s - String.length suffix)
                               (String.length suffix) s) suffix.

(** [strings.Contains]: [substr] occurs somewhere in [s]. *)
Fixpoint Contains (s substr : string) : bool :=
  String.prefix substr s ||
  match s with
  | EmptyString => false
  | String _ s' => Contains s' substr
  end.

(** [strings.Split] with a one-byte separator [sep]: the pieces between
    the occurrences of [sep]; [Split "" sep = [""]]. *)
Fixpoint Split (s : string) (sep : ascii) : list string :=
  match s with
  | EmptyString => [EmptyString]
  | String c s' =>
      let rest := Split s' sep in
      if Ascii.eqb c sep then EmptyString :: rest
      else match rest with
           | [] => [String c EmptyString]
           | h :: t => String c h :: t
           end
  end.

(** [strings.Join]. *)
Fixpoint Join (elems : list string) (sep : string) : string :=
  match elems with
  | [] => EmptyString
  | [e] => e
  | e :: rest => e +:+ sep +:+ Join rest sep
  end.

(** Go's slice expression [s[:n]] for [0 <= n <= len(s)]. *)
Definition slice_to (s : string) (n : nat) : string := String.substring 0 n s.

End gostrings.

(* ------------------------------------------------------------------ *)
(** ** Results: a value, an [error], or a run-time panic *)

Inductive Res (A : Type) : Type :=
| Ok (a : A)
| Err (e : string)
| Panic (e : string).
Arguments Ok {A} a.
Arguments Err {A} e.
Arguments Panic {A} e.

Global Instance Res_ret : MRet Res := λ A a, Ok a.
Global Instance Res_bind : MBind Res := λ A B f m,
  match m with
  | Ok a => f a
  | Err e => Err e
  | Panic e => Panic e
  end.

(** Dereferencing a Go pointer: a nil pointer ([None]) panics. *)
Definition deref {A} (p : option A) : Res A :=
  match p with
  | Some a => Ok a
  | None => Panic "invalid memory address or nil pointer dereference"
  end.

(* ------------------------------------------------------------------ *)
(** ** Go standard library: [regexp]

    Regular expressions over bytes and a matcher by Brzozowski
    derivatives.  [AnyNL] is Go's [.] without the [s] flag: any character
    but a newline.  A pattern anchored by [^] and [$] (no [m] flag) matches
    exactly the strings of its body's language, so [MatchString] of such a
    pattern is the full match of the body. *)

Module regexp.

Inductive re : Type :=
| Empty
| Eps
| Chr (c : ascii)
| AnyNL
| Cat (r1 r2 : re)
| Alt (r1 r2 : re)
| Star (r : re).

(** [r+] is [r r*]. *)
Definition Plus (r : re) : re := Cat r (Star r).

(** A literal string. *)
Fixpoint lit (s : list ascii) : re :=
  match s with
  | [] => Eps
  | c :: s' => Cat (Chr c) (lit s')
  end.

Definition newline : ascii := Ascii.ascii_of_nat 10.

Fixpoint nullable (r : re) : bool :=
  match r with
  | Empty | Chr _ | AnyNL => false
  | Eps | Star _ => true
  | Cat r1 r2 => nullable r1 && nullable r2
  | Alt r1 r2 => nullable r1 || nullable r2
  end.

Fixpoint deriv (a : ascii) (r : re) : re :=
  match r with
  | Empty | Eps => Empty
  | Chr c => if Ascii.eqb a c then Eps else Empty
  | AnyNL => if Ascii.eqb a newline then Empty else Eps
  | Cat r1 r2 =>
      if nullable r1 then Alt (Cat (deriv a r1) r2) (deriv a r2)
      else Cat (deriv a r1) r2
  | Alt r1 r2 => Alt (deriv a r1) (deriv a r2)
  | Star r1 => Cat (deriv a r1) (Star r1)
  end.

Fixpoint matches (r : re) (s : list ascii) : bool :=
  match s with
  | [] => nullable r
  | a :: s' => matches (deriv a r) s'
  end.

(** [Regexp.MatchString] of the pattern [^body$]. *)
Definition MatchString (body : re) (s : string) : bool :=
  matches body (String.list_ascii_of_string s).

(** The language of a regular expression. *)
Inductive lang : re -> list ascii -> Prop :=
| L_eps : lang Eps []
| L_chr c : lang (Chr c) [c]
| L_any c : c <> newline -> lang AnyNL [c]
| L_cat r1 r2 s1 s2 : lang r1 s1 -> lang r2 s2 -> lang (Cat r1 r2) (s1 ++ s2)
| L_alt_l r1 r2 s : lang r1 s -> lang (Alt r1 r2) s
| L_alt_r r1 r2 s : lang r2 s -> lang (Alt r1 r2) s
| L_star_nil r : lang (Star r) []
| L_star_app r s1 s2 : lang r s1 -> lang (Star r) s2 -> lang (Star r) (s1 ++ s2).

End regexp.

(* ------------------------------------------------------------------ *)
(** ** Package [outbound]: the upstream callers

    Only the constructors matter to the loader: a caller is identified by
    its transport, its dialed address, the TLS server name of a DoT caller
    and the SOCKS5 dialer ([None] is Go's nil [proxy.Dialer]). *)

Module outbound.

Inductive Caller : Type :=
| DNSCaller (addr network : string) (dialer : option string)
| DoTCaller (addr serverName : string) (dialer : option string)
| DoHCaller (url : string) (dialer : option string).

Definition NewDNSCaller (addr network : string) (dialer : option string) : Caller :=
  DNSCaller addr network dialer.
Definition NewDoTCaller (addr serverName : string) (dialer : option string) : Caller :=
  DoTCaller addr serverName dialer.
Definition NewDoHCaller (url : string) (dialer : option string) : Caller :=
  DoHCaller url dialer.

End outbound.

(* ------------------------------------------------------------------ *)
(** ** Package [hosts]: hosts readers, by inline text or by file name *)

Module hosts.

Inductive Reader : Type :=
| TextReader (text : string)
| FileReader (filename : string) (reloadTick : Z).

End hosts.

(* ------------------------------------------------------------------ *)
(** ** Package [ipset]: a handle on a kernel ipset *)

Module ipset.

Record IPSet : Type := mkIPSet { Name : string; HashType : string; Timeout : Z }.

End ipset.

(* ------------------------------------------------------------------ *)
(** ** Package [matcher]

    Modelled from the spec: the package [matcher] (the ABP rule matcher)
    is not part of the sources.  Following the spec (section 4.1 and the
    data model), a rule set is parsed from text, one rule per line, blank
    lines and comment lines ([!] or [\[]) skipped; [@@] marks an exclusion;
    a rule [example.com] matches the domain and its subdomains, a rule
    [.example.com] or [*.example.com] only strict subdomains; the first
    matching rule decides, no match is [false].  Domains are lower-cased
    and a trailing dot is ignored. *)

Module matcher.

Inductive pattern : Type :=
| Plain (d : string)
| SubOnly (d : string).

Record rule : Type := mkRule { excluded : bool; pat : pattern }.

Record ABP : Type := mkABP { rules : list rule }.

Definition newline_str : string := String regexp.newline EmptyString.

Definition parse_pattern (s : string) : pattern :=
  if String.prefix "*." s then SubOnly (String.substring 2 (String.length s - 2) s)
  else if String.prefix "." s then SubOnly (String.substring 1 (String.length s - 1) s)
  else Plain s.

Definition parse_line (l : string) : option rule :=
  if String.eqb l "" || String.prefix "!" l || String.prefix "[" l then None
  else if String.prefix "@@" l
  then Some (mkRule true (parse_pattern (String.substring 2 (String.length l - 2) l)))
  else Some (mkRule false (parse_pattern l)).

Definition NewABPByText (text : string) : ABP :=
  mkABP (omap parse_line (gostrings.Split text regexp.newline)).

Definition lower (c : ascii) : ascii :=
  let n := Ascii.nat_of_ascii c in
  if (65 <=? n)%nat && (n <=? 90)%nat then Ascii.ascii_of_nat (n + 32) else c.

Fixpoint lower_str (s : string) : string :=
  match s with
  | EmptyString => EmptyString
  | String c s' => String (lower c) (lower_str s')
  end.

Definition normalize (d : string) : string :=
  let d := lower_str d in
  if gostrings.HasSuffix d "." then gostrings.slice_to d (String.length d - 1) else d.

Definition pattern_matches (p : pattern) (d : string) : bool :=
  match p with
  | Plain r => String.eqb d r || gostrings.HasSuffix d ("." +:+ r)
  | SubOnly r => gostrings.HasSuffix d ("." +:+ r)
  end.

Fixpoint first_match (rs : list rule) (d : string) : option rule :=
  match rs with
  | [] => None
  | r :: rs' => if pattern_matches (pat r) d then Some r else first_match rs' d
  end.

Definition Match (m : ABP) (domain : string) : bool :=
  match first_match (rules m) (normalize domain) with
  | Some r => negb (excluded r)
  | None => false
  end.

End matcher.

(* ------------------------------------------------------------------ *)
(** ** Package [cache]

    Modelled from the spec: the package [cache] ([DNSCache] and the CN-IP
    [RamSet]) is not part of the sources.  Following the spec (section 4.2):
    [Get] misses on absent or expired entries; [Set] clamps the origin TTL
    (the least TTL of the answer, or a default for an empty answer) into
    [minTTL, maxTTL], overwrites the key and evicts the oldest entries so
    that at most [size] entries are held; a non-positive size disables the
    cache: [Get] always misses and [Set] is a no-op.  Times and TTL bounds
    are [time.Duration]s (nanoseconds), record TTLs are seconds. *)

Module cache.

Record Key : Type := mkKey { qname : string; qtype : Z }.

Global Instance Key_eq_dec : EqDecision Key.
Proof. solve_decision. Defined.

Record Msg : Type := mkMsg { answer_ttls : list Z; body : string }.

Record DNSCache : Type := mkDNSCache {
  size : Z;
  minTTL : Z;
  maxTTL : Z;
  entries : list (Key * (Msg * Z))   (* oldest first; value and expiry *)
}.

Definition NewDNSCache (size minTTL maxTTL : Z) : DNSCache :=
  mkDNSCache size minTTL maxTTL [].

Definition second : Z := 1000000000.

Section with_default_ttl.

(** The TTL taken for an answer without records; the spec leaves it open. *)
Variable default_ttl : Z.

Definition origin_ttl (m : Msg) : Z :=
  match answer_ttls m with
  | [] => default_ttl
  | t :: ts => fold_left Z.min ts t
  end.

Definition clamp (lo hi x : Z) : Z := Z.min hi (Z.max lo x).

Definition Get (c : DNSCache) (k : Key) (now : Z) : option Msg :=
  if size c <=? 0 then None
  else match snd <$> list_find (λ e, fst e = k) (entries c) with
       | Some (_, (m, expiry)) => if now <? expiry then Some m else None
       | None => None
       end.

Definition Set_ (c : DNSCache) (k : Key) (m : Msg) (now : Z) : DNSCache :=
  if size c <=? 0 then c
  else
    let ttl := clamp (minTTL c) (maxTTL c) (origin_ttl m * second) in
    let others := filter (λ e, fst e ≠ k) (entries c) in
    let kept := drop (length others + 1 - Z.to_nat (size c)) others in
    mkDNSCache (size c) (minTTL c) (maxTTL c) (kept ++ [(k, (m, now + ttl))]).

End with_default_ttl.

(** The CN-IP set, kept as the text it was loaded from. *)
Record RamSet : Type := mkRamSet { cidrs : string }.

End cache.

(* ------------------------------------------------------------------ *)
(** ** Package [inbound]: the handler the loader builds *)

Module inbound.

Record Group : Type := mkGroup {
  Callers : list outbound.Caller;
  Concurrent : bool;
  Matcher : matcher.ABP;
  IPSet : option ipset.IPSet      (* nil when the group has no ipset *)
}.

Record Handler : Type := mkHandler {
  Listen : string;
  GFWMatcher : matcher.ABP;
  CNIP : cache.RamSet;
  HostsReaders : list hosts.Reader;
  Cache : cache.DNSCache;
  Groups : gmap string Group
}.

End inbound.

(* ------------------------------------------------------------------ *)
(** ** Package [conf] (src/cmd/conf/conf.go) *)

Module conf.

(** [Group]: one [groups] section. *)
Record Group : Type := mkGroup {
  Socks5 : string;
  IPSet : string;
  IPSetTTL : Z;
  DNS : list string;
  DoT : list string;
  DoH : list string;
  Concurrent : bool;
  Rules : list string
}.

(** [Cache]: the [cache] section (named [CacheT] here, since the field of
    [Conf] that points to it keeps the name [Cache]). *)
Record CacheT : Type := mkCache { Size : Z; MinTTL : Z; MaxTTL : Z }.

(** [Conf]: the whole file.  [Cache] is a Go pointer, nil ([None]) when the
    file has no [cache] section. *)
Record Conf : Type := mkConf {
  Listen : string;
  GFWList : string;
  CNIP : string;
  HostsFiles : list string;
  Hosts : gmap string string;
  Cache : option CacheT;
  Groups : gmap string Group
}.

(** The outside world the loader reads: the decoded TOML file
    ([toml.DecodeFile]), the gfwlist ([matcher.NewABPByFile]) and CN-IP
    ([cache.NewRamSetByFile]) files, the hosts files
    ([hosts.NewReaderByFile]) and the kernel ([ipset.New]).  [None] or
    [false] is a failure with a non-nil [error]. *)
Record Env : Type := mkEnv {
  env_toml : string -> option Conf;
  env_gfwlist : string -> option string;
  env_cnip : string -> option string;
  env_hosts_file : string -> bool;
  env_ipset : string -> Z -> bool
}.

(** The method [GenIPSet] of [*Group]. *)
Definition GenIPSet (env : Env) (conf : Group) : Res (option ipset.IPSet) :=
  if negb (String.eqb (IPSet conf) "") then
    if env_ipset env (IPSet conf) (IPSetTTL conf)
    then Ok (Some (ipset.mkIPSet (IPSet conf) "hash:ip" (IPSetTTL conf)))
    else Err "ipset: cannot create set"
  else Ok None.

(** The SOCKS5 dialer of [GenCallers]: nil unless [Socks5] is set. *)
Definition dialer_of (conf : Group) : option string :=
  if String.eqb (Socks5 conf) "" then None else Some (Socks5 conf).

(** One iteration of the loop over [conf.DNS]. *)
Definition dns_callers (dialer : option string) (addr : string) : list outbound.Caller :=
  let '(addr, network) :=
    if gostrings.HasSuffix addr "/tcp"
    then (gostrings.slice_to addr (String.length addr - 4), "tcp")
    else (addr, "udp") in
  if negb (String.eqb addr "") then
    let addr := if gostrings.Contains addr ":" then addr else addr +:+ ":53" in
    [outbound.NewDNSCaller addr network dialer]
  else [].

(** One iteration of the loop over [conf.DoT]. *)
Definition dot_callers (dialer : option string) (addr : string) : list outbound.Caller :=
  match gostrings.Split addr "@"%char with
  | [addr; serverName] =>
      if negb (String.eqb addr "") && negb (String.eqb serverName "") then
        let addr := if gostrings.Contains addr ":" then addr else addr +:+ ":853" in
        [outbound.NewDoTCaller addr serverName dialer]
      else []
  | _ => []
  end.

(** [dohReg = regexp.MustCompile(`^https://.+/dns-query$`)]. *)
Definition dohReg : regexp.re :=
  regexp.Cat (regexp.lit (String.list_ascii_of_string "https://"))
    (regexp.Cat (regexp.Plus regexp.AnyNL)
       (regexp.lit (String.list_ascii_of_string "/dns-query"))).

(** One iteration of the loop over [conf.DoH]. *)
Definition doh_callers (dialer : option string) (addr : string) : list outbound.Caller :=
  if regexp.MatchString dohReg addr then [outbound.NewDoHCaller addr dialer] else [].

(** The method [GenCallers] of [*Group]. *)
Definition GenCallers (conf : Group) : list outbound.Caller :=
  let dialer := dialer_of conf in
  flat_map (dns_callers dialer) (DNS conf) ++
  flat_map (dot_callers dialer) (DoT conf) ++
  flat_map (doh_callers dialer) (DoH conf).

(** The method [SetDefault] of [*Conf]. *)
Definition SetDefault (conf : Conf) : Conf :=
  let conf := if String.eqb (Listen conf) "" then
                mkConf ":53" (GFWList conf) (CNIP conf) (HostsFiles conf)
                  (Hosts conf) (Cache conf) (Groups conf)
              else conf in
  let conf := if String.eqb (GFWList conf) "" then
                mkConf (Listen conf) "gfwlist.txt" (CNIP conf) (HostsFiles conf)
                  (Hosts conf) (Cache conf) (Groups conf)
              else conf in
  let conf := if String.eqb (CNIP conf) "" then
                mkConf (Listen conf) (GFWList conf) "cnip.txt" (HostsFiles conf)
                  (Hosts conf) (Cache conf) (Groups conf)
              else conf in
  conf.

(** [time.Duration(x) * time.Second]: an [int64] product, wrapping. *)
Definition wrap64 (x : Z) : Z :=
  let m := x mod 2 ^ 64 in if 2 ^ 63 <=? m then m - 2 ^ 64 else m.

Definition duration_seconds (x : Z) : Z := wrap64 (x * cache.second).

(** The method [GenCache] of [*Conf]: it writes the defaults through the
    pointer [conf.Cache] (nil pointer: panic) and returns the updated
    configuration with the new cache. *)
Definition GenCache (conf : Conf) : Res (Conf * cache.DNSCache) :=
  c ← deref (Cache conf);
  let c := if Size c =? 0 then mkCache 4096 (MinTTL c) (MaxTTL c) else c in
  let c := if MinTTL c =? 0 then mkCache (Size c) 60 (MaxTTL c) else c in
  let c := if MaxTTL c =? 0 then mkCache (Size c) (MinTTL c) 86400 else c in
  let minTTL := duration_seconds (MinTTL c) in
  let maxTTL := duration_seconds (MaxTTL c) in
  Ok (mkConf (Listen conf) (GFWList conf) (CNIP conf) (HostsFiles conf)
        (Hosts conf) (Some c) (Groups conf),
      cache.NewDNSCache (Size c) minTTL maxTTL).

(** [hosts.NewReaderByFile(filename, 0)]. *)
Definition NewReaderByFile (env : Env) (filename : string) : Res hosts.Reader :=
  if env_hosts_file env filename then Ok (hosts.FileReader filename 0)
  else Err "read hosts error".

(** The method [GenHostsReader] of [*Conf]; a hosts file that cannot be
    read is logged (not modelled) and skipped. *)
Definition GenHostsReader (env : Env) (conf : Conf) : list hosts.Reader :=
  let lines := (λ '(hostname, ip), ip +:+ " " +:+ hostname) <$> map_to_list (Hosts conf) in
  let readers := if (0 <? length lines)%nat
                 then [hosts.TextReader (gostrings.Join lines matcher.newline_str)]
                 else [] in
  readers ++
  flat_map (λ filename, match NewReaderByFile env filename with
                        | Ok reader => [reader]
                        | _ => []
                        end) (HostsFiles conf).

(** [matcher.NewABPByFile(config.GFWList, true)]. *)
Definition NewABPByFile (env : Env) (filename : string) : Res matcher.ABP :=
  match env_gfwlist env filename with
  | Some text => Ok (matcher.NewABPByText text)
  | None => Err "read gfwlist error"
  end.

(** [cache.NewRamSetByFile(config.CNIP)]. *)
Definition NewRamSetByFile (env : Env) (filename : string) : Res cache.RamSet :=
  match env_cnip env filename with
  | Some text => Ok (cache.mkRamSet text)
  | None => Err "read cnip error"
  end.

(** The handler group built from one [groups] section. *)
Definition handler_group (group : Group) (ips : option ipset.IPSet) : inbound.Group :=
  inbound.mkGroup (GenCallers group) (Concurrent group)
    (matcher.NewABPByText (gostrings.Join (Rules group) matcher.newline_str)) ips.

(** The loop [for name, group := range config.Groups] of [NewHandler]. *)
Fixpoint build_groups (env : Env) (l : list (string * Group))
    (acc : gmap string inbound.Group) : Res (gmap string inbound.Group) :=
  match l with
  | [] => Ok acc
  | (name, group) :: l' =>
      ips ← GenIPSet env group;
      build_groups env l' (<[name := handler_group group ips]> acc)
  end.

Definition empty_group_msg : string := "dns of clean/dirty group cannot be empty".

(** The validity check at the end of [NewHandler]:
    [len(handler.Groups) <= 0 || len(handler.Groups["clean"].Callers) <= 0
     || len(handler.Groups["dirty"].Callers) <= 0]; a missing group is a
    nil [*inbound.Group], and reading its [Callers] dereferences it. *)
Definition check_groups (groups : gmap string inbound.Group) : Res unit :=
  if (size groups <=? 0)%nat then Err empty_group_msg else
  clean ← deref (groups !! "clean");
  if (length (inbound.Callers clean) <=? 0)%nat then Err empty_group_msg else
  dirty ← deref (groups !! "dirty");
  if (length (inbound.Callers dirty) <=? 0)%nat then Err empty_group_msg else
  Ok tt.

(** [NewHandler(filename)]. *)
Definition NewHandler (env : Env) (filename : string) : Res inbound.Handler :=
  match env_toml env filename with
  | None => Err "read config error"
  | Some config =>
      let config := SetDefault config in
      gfw ← NewABPByFile env (GFWList config);
      cnip ← NewRamSetByFile env (CNIP config);
      let readers := GenHostsReader env config in
      p ← GenCache config;
      let '(config, c) := p in
      groups ← build_groups env (map_to_list (Groups config)) ∅;
      _ ← check_groups groups;
      Ok (inbound.mkHandler (Listen config) gfw cnip readers c groups)
  end.

End conf.

(* ------------------------------------------------------------------ *)
(** ** Concrete configurations, after src/ts-dns-full.toml *)

Module fixtures.

Definition clean_group : conf.Group :=
  conf.mkGroup "" "" 0 ["119.29.29.29/tcp"; "223.5.5.5:53"; "114.114.114.114"]
    [] [] true ["qq.com"; ".baidu.com"; "*.taobao.com"].

Definition dirty_group : conf.Group :=
  conf.mkGroup "127.0.0.1:1080" "blocked" 86400 ["8.8.8.8"; "1.1.1.1"]
    ["1.0.0.1:853@cloudflare-dns.com"] ["https://cloudflare-dns.com/dns-query"]
    false [].

(** A custom group without any upstream server. *)
Definition work_group : conf.Group :=
  conf.mkGroup "" "" 0 [] [] [] false ["company.com"].

Definition cache_section (size : Z) : conf.CacheT := conf.mkCache size 60 86400.

Definition sample_hosts : gmap string string :=
  <["example.com" := "8.8.8.8"]> (<["cloudflare-dns.com" := "1.0.0.1"]> ∅).

Definition with_groups (size : Z) (groups : gmap string conf.Group) : conf.Conf :=
  conf.mkConf ":53" "gfwlist.txt" "cnip.txt" ["/etc/hosts"] sample_hosts
    (Some (cache_section size)) groups.

Definition sample_conf : conf.Conf :=
  with_groups 4096
    (<["clean" := clean_group]> (<["dirty" := dirty_group]> (<["work" := work_group]> ∅))).

(** The same file without a [dirty] group. *)
Definition no_dirty_conf : conf.Conf :=
  with_groups 4096 (<["clean" := clean_group]> ∅).

(** A file system holding [ts-dns.toml], [gfwlist.txt] (one rule,
    [google.com]), [cnip.txt] and [/etc/hosts]; every ipset is created. *)
Definition sample_env (c : conf.Conf) : conf.Env :=
  conf.mkEnv
    (λ f, if String.eqb f "ts-dns.toml" then Some c else None)
    (λ f, if String.eqb f "gfwlist.txt" then Some "google.com" else None)
    (λ f, if String.eqb f "cnip.txt" then Some "1.0.0.0/24" else None)
    (λ f, String.eqb f "/etc/hosts")
    (λ _ _, true).

(** The same, without a readable gfwlist. *)
Definition env_without_gfwlist (c : conf.Conf) : conf.Env :=
  conf.mkEnv (conf.env_toml (sample_env c)) (λ _, None)
    (conf.env_cnip (sample_env c)) (conf.env_hosts_file (sample_env c))
    (conf.env_ipset (sample_env c)).



(** The sample file without a [cache] section. *)
Definition no_cache_conf : conf.Conf :=
  conf.mkConf ":53" "gfwlist.txt" "cnip.txt" ["/etc/hosts"] sample_hosts None
    (conf.Groups sample_conf).

(** The sample environment on a kernel that refuses to create ipsets. *)
Definition env_without_ipset (c : conf.Conf) : conf.Env :=
  conf.mkEnv (conf.env_toml (sample_env c)) (conf.env_gfwlist (sample_env c))
    (conf.env_cnip (sample_env c)) (conf.env_hosts_file (sample_env c))
    (λ _ _, false).

Definition sample_key : cache.Key := cache.mkKey "example.org" 1.
Definition sample_msg : cache.Msg := cache.mkMsg [300] "example.org. 300 IN A 93.184.216.34".

End fixtures.

(* ------------------------------------------------------------------ *)
(** ** Observations on the loader's environment and result *)

Module observe.

(** The same environment with other hosts files readable. *)
Definition with_hosts_files (env : conf.Env) (hf : string -> bool) : conf.Env :=
  conf.mkEnv (conf.env_toml env) (conf.env_gfwlist env) (conf.env_cnip env) hf
    (conf.env_ipset env).

(** The outcome of [NewHandler] with the hosts readers left out. *)
Definition without_readers (r : Res inbound.Handler) : Res inbound.Handler :=
  match r with
  | Ok h => Ok (inbound.mkHandler (inbound.Listen h) (inbound.GFWMatcher h)
                 (inbound.CNIP h) [] (inbound.Cache h) (inbound.Groups h))
  | Err e => Err e
  | Panic e => Panic e
  end.

End observe.

(* ================================================================== *)
(** * Properties *)

(** Case analysis on whether the string [x] is empty. *)
Ltac empty_cases x H :=
  destruct (String.eqb_spec x "") as [->|H]; [|apply String.eqb_neq in H].

(* ------------------------------------------------------------------ *)
(** ** SetDefault *)

Lemma SetDefault_fields (c : conf.Conf) :
  conf.Listen (conf.SetDefault c) =
    (if String.eqb (conf.Listen c) "" then ":53" else conf.Listen c) /\
  conf.GFWList (conf.SetDefault c) =
    (if String.eqb (conf.GFWList c) "" then "gfwlist.txt" else conf.GFWList c) /\
  conf.CNIP (conf.SetDefault c) =
    (if String.eqb (conf.CNIP c) "" then "cnip.txt" else conf.CNIP c) /\
  conf.HostsFiles (conf.SetDefault c) = conf.HostsFiles c /\
  conf.Hosts (conf.SetDefault c) = conf.Hosts c /\
  conf.Cache (conf.SetDefault c) = conf.Cache c /\
  conf.Groups (conf.SetDefault c) = conf.Groups c.
Proof.
  destruct c as [l g cn hf h ca gr]; unfold conf.SetDefault; simpl.
  empty_cases l Hl; empty_cases g Hg; empty_cases cn Hc;
    do 4 (simpl; rewrite ?Hl, ?Hg, ?Hc); repeat split.
Qed.

(** C10: [SetDefault] fills in exactly the empty [Listen], [GFWList] and
    [CNIP] fields (with [":53"], ["gfwlist.txt"] and ["cnip.txt"]), leaves
    every other field as it is, and is idempotent. *)
Theorem SetDefault_only_empty_fields_idempotent (c : conf.Conf) :
  conf.Listen (conf.SetDefault c) =
    (if String.eqb (conf.Listen c) "" then ":53" else conf.Listen c) /\
  conf.GFWList (conf.SetDefault c) =
    (if String.eqb (conf.GFWList c) "" then "gfwlist.txt" else conf.GFWList c) /\
  conf.CNIP (conf.SetDefault c) =
    (if String.eqb (conf.CNIP c) "" then "cnip.txt" else conf.CNIP c) /\
  conf.HostsFiles (conf.SetDefault c) = conf.HostsFiles c /\
  conf.Hosts (conf.SetDefault c) = conf.Hosts c /\
  conf.Cache (conf.SetDefault c) = conf.Cache c /\
  conf.Groups (conf.SetDefault c) = conf.Groups c /\
  conf.SetDefault (conf.SetDefault c) = conf.SetDefault c.
Proof.
  split; [apply SetDefault_fields|].
  split; [apply SetDefault_fields|].
  split; [apply SetDefault_fields|].
  split; [apply SetDefault_fields|].
  split; [apply SetDefault_fields|].
  split; [apply SetDefault_fields|].
  split; [apply SetDefault_fields|].
  destruct c as [l g cn hf h ca gr]; unfold conf.SetDefault; simpl.
  empty_cases l Hl; empty_cases g Hg; empty_cases cn Hc;
    do 8 (simpl; rewrite ?Hl, ?Hg, ?Hc); reflexivity.
Qed.

(* ------------------------------------------------------------------ *)
(** ** GenCache *)

(** The result of [GenCache] on a config with a [cache] section. *)
Lemma GenCache_result (c : conf.Conf) (cc : conf.CacheT)
    (H : conf.Cache c = Some cc) :
  conf.GenCache c =
    Ok (conf.mkConf (conf.Listen c) (conf.GFWList c) (conf.CNIP c)
          (conf.HostsFiles c) (conf.Hosts c)
          (Some (conf.mkCache
                   (if conf.Size cc =? 0 then 4096 else conf.Size cc)
                   (if conf.MinTTL cc =? 0 then 60 else conf.MinTTL cc)
                   (if conf.MaxTTL cc =? 0 then 86400 else conf.MaxTTL cc)))
          (conf.Groups c),
        cache.NewDNSCache
          (if conf.Size cc =? 0 then 4096 else conf.Size cc)
          (conf.duration_seconds (if conf.MinTTL cc =? 0 then 60 else conf.MinTTL cc))
          (conf.duration_seconds (if conf.MaxTTL cc =? 0 then 86400 else conf.MaxTTL cc))).
Proof.
  unfold conf.GenCache; rewrite H; cbn.
  destruct cc as [s mi ma]; cbn.
  destruct (s =? 0); cbn; destruct (mi =? 0); cbn; destruct (ma =? 0); reflexivity.
Qed.

(** C9: [GenCache] replaces each cache parameter that is exactly zero by its
    default (size 4096, min_ttl 60 s, max_ttl 86400 s), passes every
    non-zero value (negative ones included) through unchanged, writes the
    result back into [conf.Cache] and builds the cache from it. *)
Theorem GenCache_zero_defaults (c : conf.Conf) (cc : conf.CacheT)
    (H : conf.Cache c = Some cc) :
  conf.GenCache c =
    Ok (conf.mkConf (conf.Listen c) (conf.GFWList c) (conf.CNIP c)
          (conf.HostsFiles c) (conf.Hosts c)
          (Some (conf.mkCache
                   (if conf.Size cc =? 0 then 4096 else conf.Size cc)
                   (if conf.MinTTL cc =? 0 then 60 else conf.MinTTL cc)
                   (if conf.MaxTTL cc =? 0 then 86400 else conf.MaxTTL cc)))
          (conf.Groups c),
        cache.NewDNSCache
          (if conf.Size cc =? 0 then 4096 else conf.Size cc)
          (conf.duration_seconds (if conf.MinTTL cc =? 0 then 60 else conf.MinTTL cc))
          (conf.duration_seconds (if conf.MaxTTL cc =? 0 then 86400 else conf.MaxTTL cc))) /\
  conf.duration_seconds 60 = 60 * cache.second /\
  conf.duration_seconds 86400 = 86400 * cache.second.
Proof.
  split; [exact (GenCache_result c cc H)|split; reflexivity].
Qed.

Lemma GenCache_zero_defaults_witness :
  conf.Cache (fixtures.with_groups 0 ∅) = Some (fixtures.cache_section 0) /\
  conf.GenCache (fixtures.with_groups 0 ∅) =
    Ok (conf.mkConf ":53" "gfwlist.txt" "cnip.txt" ["/etc/hosts"] fixtures.sample_hosts
          (Some (conf.mkCache 4096 60 86400)) ∅,
        cache.NewDNSCache 4096 (conf.duration_seconds 60) (conf.duration_seconds 86400)) /\
  conf.duration_seconds 60 = 60 * cache.second /\
  conf.duration_seconds 86400 = 86400 * cache.second.
Proof.
  split; [reflexivity|].
  exact (GenCache_zero_defaults (fixtures.with_groups 0 ∅) (fixtures.cache_section 0) eq_refl).
Defined.

(** A cache with a non-positive size neither stores nor returns anything. *)
Lemma cache_nonpositive_disabled (d : Z) (st : cache.DNSCache) (k : cache.Key)
    (m : cache.Msg) (now : Z) :
  cache.size st <= 0 ->
  cache.Set_ d st k m now = st /\ cache.Get st k now = None.
Proof.
  intros Hs. unfold cache.Set_, cache.Get.
  destruct (Z.leb_spec (cache.size st) 0); [split; reflexivity|lia].
Qed.

(** C2 (as stated, refuted): with [size = 0] in the [cache] section the
    cache built by [GenCache] is enabled: an entry just [Set] is found by
    [Get]. *)
Lemma GenCache_size_zero_caches :
  exists conf' dc,
    conf.GenCache (fixtures.with_groups 0 ∅) = Ok (conf', dc) /\
    cache.Get (cache.Set_ 0 dc fixtures.sample_key fixtures.sample_msg 0)
      fixtures.sample_key 0 = Some fixtures.sample_msg.
Proof.
  eexists _, _; split; [reflexivity|vm_compute; reflexivity].
Qed.

(** C2 (amended): a negative [size] yields a disabled cache ([Get] always
    misses, [Set] is a no-op, in every state of that cache), while
    [size = 0] is replaced by the default 4096. *)
Theorem GenCache_negative_size_disables (c : conf.Conf) (cc : conf.CacheT)
    (H : conf.Cache c = Some cc) :
  (conf.Size cc < 0 ->
   exists c' dc, conf.GenCache c = Ok (c', dc) /\ cache.size dc = conf.Size cc /\
     forall d st k m now, cache.size st = cache.size dc ->
       cache.Set_ d st k m now = st /\ cache.Get st k now = None) /\
  (conf.Size cc = 0 ->
   exists c' dc, conf.GenCache c = Ok (c', dc) /\ cache.size dc = 4096).
Proof.
  pose proof (GenCache_result c cc H) as Hg.
  split; intros Hs; do 2 eexists; split; try exact Hg; cbn.
  - assert (Hne : (conf.Size cc =? 0) = false) by (apply Z.eqb_neq; lia).
    rewrite Hne; split; [reflexivity|].
    intros d st k m now Hst. apply cache_nonpositive_disabled; lia.
  - rewrite Hs; reflexivity.
Qed.

Lemma GenCache_negative_size_disables_witness :
  conf.Cache (fixtures.with_groups (-1) ∅) = Some (fixtures.cache_section (-1)) /\
  ((-1 < 0 ->
    exists c' dc, conf.GenCache (fixtures.with_groups (-1) ∅) = Ok (c', dc) /\
      cache.size dc = -1 /\
      forall d st k m now, cache.size st = cache.size dc ->
        cache.Set_ d st k m now = st /\ cache.Get st k now = None) /\
   (-1 = 0 ->
    exists c' dc, conf.GenCache (fixtures.with_groups (-1) ∅) = Ok (c', dc) /\
      cache.size dc = 4096)).
Proof.
  split; [reflexivity|].
  exact (GenCache_negative_size_disables (fixtures.with_groups (-1) ∅)
           (fixtures.cache_section (-1)) eq_refl).
Defined.

(* ------------------------------------------------------------------ *)
(** ** Strings as lists of bytes *)

Abbreviation las := String.list_ascii_of_string.

Lemma las_app (a b : string) : las (a +:+ b) = las a ++ las b.
Proof. induction a as [|c a IH]; simpl; [reflexivity|now rewrite IH]. Qed.

Lemma las_inj (a b : string) : las a = las b -> a = b.
Proof.
  intros H. rewrite <- (String.string_of_list_ascii_of_string a),
    <- (String.string_of_list_ascii_of_string b), H. reflexivity.
Qed.

Lemma las_length (s : string) : length (las s) = String.length s.
Proof. induction s as [|c s IH]; cbn; congruence. Qed.

Lemma las_substring (n m : nat) (s : string) :
  las (String.substring n m s) = take m (drop n (las s)).
Proof.
  revert n m; induction s as [|c s IH]; intros [|n] [|m]; cbn; auto.
  - now rewrite IH.
Qed.

Lemma HasSuffix_spec (s suf : string) :
  gostrings.HasSuffix s suf = true <-> exists x, s = x +:+ suf.
Proof.
  unfold gostrings.HasSuffix. rewrite andb_true_iff, Nat.leb_le, String.eqb_eq.
  split.
  - intros [Hle Hsub].
    set (n := (String.length s - String.length suf)%nat) in *.
    exists (gostrings.slice_to s n).
    assert (Hs : las suf = take (String.length suf) (drop n (las s)))
      by (rewrite <- las_substring, Hsub; reflexivity).
    apply las_inj. rewrite las_app. unfold gostrings.slice_to.
    rewrite las_substring, drop_0, Hs.
    rewrite (take_ge (drop n (las s))).
    + symmetry. apply take_drop.
    + rewrite length_drop, las_length. unfold n. lia.
  - intros [x ->]. rewrite <- !las_length, las_app, length_app. split; [lia|].
    apply las_inj. rewrite las_substring, las_app.
    replace (length (las x) + length (las suf) - length (las suf))%nat
      with (length (las x)) by lia.
    rewrite drop_app_length, take_ge by lia. reflexivity.
Qed.

(** Cutting a present suffix off leaves exactly the rest of the string. *)
Lemma HasSuffix_slice (s suf : string) :
  gostrings.HasSuffix s suf = true ->
  gostrings.slice_to s (String.length s - String.length suf) +:+ suf = s.
Proof.
  intros H. apply HasSuffix_spec in H as [x ->].
  apply las_inj. unfold gostrings.slice_to.
  rewrite !las_app, las_substring, drop_0, <- !las_length, las_app, length_app.
  replace (length (las x) + length (las suf) - length (las suf))%nat
    with (length (las x)) by lia.
  rewrite take_app_length. reflexivity.
Qed.

(** [strings.Contains] with a one-byte needle looks for that byte. *)
Lemma Contains_char (s : string) (c : ascii) :
  gostrings.Contains s (String c EmptyString) = existsb (Ascii.eqb c) (las s).
Proof.
  induction s as [|b s IH]; cbn; [reflexivity|].
  rewrite IH. destruct (Ascii.ascii_dec c b) as [->|Hne].
  - rewrite Ascii.eqb_refl. destruct s; reflexivity.
  - apply Ascii.eqb_neq in Hne. now rewrite Hne.
Qed.

Lemma Contains_app_char (a b : string) (c : ascii) :
  gostrings.Contains (a +:+ b) (String c EmptyString) =
  gostrings.Contains a (String c EmptyString) || gostrings.Contains b (String c EmptyString).
Proof. rewrite !Contains_char, las_app. apply existsb_app. Qed.

(** No piece of [strings.Split] is missing: the result is never empty. *)
Lemma Split_not_nil (s : string) (c : ascii) : gostrings.Split s c <> [].
Proof.
  induction s as [|x s IH]; cbn; [discriminate|].
  destruct (Ascii.eqb x c); [discriminate|].
  destruct (gostrings.Split s c); discriminate.
Qed.

Lemma Split_one (s x : string) (c : ascii) :
  gostrings.Split s c = [x] <-> s = x /\ ~ In c (las s).
Proof.
  revert x; induction s as [|y s IH]; intros x; cbn.
  - split; [intros [= <-]; tauto|intros [<- _]; reflexivity].
  - destruct (Ascii.eqb_spec y c) as [->|Hne].
    + split; [intros [= _ H]; exfalso; exact (Split_not_nil s c H)|].
      intros [_ H]. exfalso; apply H; left; reflexivity.
    + destruct (gostrings.Split s c) as [|h t] eqn:E;
        [exfalso; exact (Split_not_nil s c E)|].
      split.
      * intros [= <- ->]. destruct (proj1 (IH h) eq_refl) as [-> Hn].
        split; [reflexivity|]. intros [?|?]; [congruence|tauto].
      * intros [<- Hn]. assert (Hs : h :: t = [s]).
        { apply IH; split; [reflexivity|]. intros Hi; apply Hn; right; exact Hi. }
        injection Hs as -> ->. reflexivity.
Qed.

(** [strings.Split] yields exactly two pieces iff the separator occurs
    exactly once. *)
Lemma Split_two (s a b : string) (c : ascii) :
  gostrings.Split s c = [a; b] <->
  s = a +:+ String c b /\ ~ In c (las a) /\ ~ In c (las b).
Proof.
  revert a; induction s as [|y s IH]; intros a; cbn.
  - split; [intros [=]|]. intros [H _]. destruct a; discriminate.
  - destruct (Ascii.eqb_spec y c) as [->|Hne].
    + split.
      * intros [= <- Hs]. apply Split_one in Hs as [-> Hn].
        split; [reflexivity|]. split; [cbn; tauto|exact Hn].
      * intros [H [Ha Hb]]. destruct a as [|z a]; cbn in H.
        -- injection H as ->. f_equal. apply Split_one. split; auto.
        -- injection H as Hz _. subst z. exfalso. apply Ha. left. reflexivity.
    + destruct (gostrings.Split s c) as [|h t] eqn:E;
        [exfalso; exact (Split_not_nil s c E)|].
      split.
      * intros [= <- Ht]. subst t. destruct (proj1 (IH h) eq_refl) as [-> [Hh Hb]].
        split; [reflexivity|]. split; [|exact Hb].
        intros [?|?]; [congruence|tauto].
      * intros [H [Ha Hb]]. destruct a as [|z a]; cbn in H.
        -- injection H as Hy _. congruence.
        -- injection H as Hyz Hs. subst z.
           assert (Ht : h :: t = [a; b]).
           { apply IH. split; [exact Hs|]. split; [|exact Hb].
             intros Hi. apply Ha. right. exact Hi. }
           injection Ht as -> ->. reflexivity.
Qed.

(* ------------------------------------------------------------------ *)
(** ** GenCallers *)

Lemma dns_callers_shape (d : option string) (addr : string) (c : outbound.Caller) :
  In c (conf.dns_callers d addr) -> exists a n, c = outbound.DNSCaller a n d.
Proof.
  unfold conf.dns_callers. destruct (gostrings.HasSuffix addr "/tcp");
    match goal with |- context [if negb (String.eqb ?x "") then _ else _] =>
      destruct (String.eqb x "") end; cbn; intros H; try tauto;
    destruct H as [<-|[]]; eauto.
Qed.

Lemma dot_callers_shape (d : option string) (addr : string) (c : outbound.Caller) :
  In c (conf.dot_callers d addr) -> exists a sn, c = outbound.DoTCaller a sn d.
Proof.
  unfold conf.dot_callers.
  destruct (gostrings.Split addr "@") as [|a0 [|sn0 [|? ?]]]; cbn; try tauto.
  destruct (negb (String.eqb a0 "") && negb (String.eqb sn0 "")); cbn; [|tauto].
  intros [<-|[]]; eauto.
Qed.

Lemma doh_callers_shape (d : option string) (addr : string) (c : outbound.Caller) :
  In c (conf.doh_callers d addr) -> c = outbound.DoHCaller addr d.
Proof.
  unfold conf.doh_callers. destruct (regexp.MatchString conf.dohReg addr); cbn;
    [intros [<-|[]]; reflexivity|tauto].
Qed.

Lemma Contains_colon_tcp (x : string) :
  gostrings.Contains (x +:+ "/tcp") ":" = gostrings.Contains x ":".
Proof. rewrite Contains_app_char. cbn. apply orb_false_r. Qed.

(** The caller generated for one entry of [conf.DNS]. *)
Lemma dns_callers_spec (d : option string) (addr a net : string) :
  In (outbound.DNSCaller a net d) (conf.dns_callers d addr) <->
  (if gostrings.HasSuffix addr "/tcp"
   then gostrings.slice_to addr (String.length addr - 4) else addr) <> "" /\
  net = (if gostrings.HasSuffix addr "/tcp" then "tcp" else "udp") /\
  a = (if gostrings.Contains addr ":"
       then (if gostrings.HasSuffix addr "/tcp"
             then gostrings.slice_to addr (String.length addr - 4) else addr)
       else (if gostrings.HasSuffix addr "/tcp"
             then gostrings.slice_to addr (String.length addr - 4) else addr) +:+ ":53").
Proof.
  unfold conf.dns_callers.
  destruct (gostrings.HasSuffix addr "/tcp") eqn:Ht.
  - pose proof (HasSuffix_slice addr "/tcp" Ht) as Hs.
    change (String.length "/tcp") with 4%nat in Hs.
    set (x := gostrings.slice_to addr (String.length addr - 4)) in *.
    assert (Hc : gostrings.Contains addr ":" = gostrings.Contains x ":")
      by (rewrite <- Hs; apply Contains_colon_tcp).
    rewrite Hc. cbn.
    destruct (String.eqb_spec x ""); cbn.
    + split; [tauto|intros [? _]; contradiction].
    + split; [intros [[= -> ->]|[]]; auto|intros (_ & -> & ->); left; reflexivity].
  - cbn. destruct (String.eqb_spec addr ""); cbn.
    + split; [tauto|intros [? _]; contradiction].
    + split; [intros [[= -> ->]|[]]; auto|intros (_ & -> & ->); left; reflexivity].
Qed.

(** C4: [GenCallers] emits a plain-DNS caller with address [a] and network
    [net] iff some entry [addr] of [conf.DNS] yields it: the network is
    ["tcp"] exactly when [addr] ends in ["/tcp"] and ["udp"] otherwise, the
    dialed address is [addr] with that suffix cut off, with [":53"] appended
    when [addr] contains no [":"]; the cut removes exactly the suffix. *)
Theorem GenCallers_dns_transport (g : conf.Group) (a net : string) :
  (In (outbound.DNSCaller a net (conf.dialer_of g)) (conf.GenCallers g) <->
   exists addr, In addr (conf.DNS g) /\
     (if gostrings.HasSuffix addr "/tcp"
      then gostrings.slice_to addr (String.length addr - 4) else addr) <> "" /\
     net = (if gostrings.HasSuffix addr "/tcp" then "tcp" else "udp") /\
     a = (if gostrings.Contains addr ":"
          then (if gostrings.HasSuffix addr "/tcp"
                then gostrings.slice_to addr (String.length addr - 4) else addr)
          else (if gostrings.HasSuffix addr "/tcp"
                then gostrings.slice_to addr (String.length addr - 4) else addr) +:+ ":53")) /\
  (forall addr, gostrings.HasSuffix addr "/tcp" = true ->
     gostrings.slice_to addr (String.length addr - 4) +:+ "/tcp" = addr).
Proof.
  split.
  - unfold conf.GenCallers. rewrite !in_app_iff, !in_flat_map. split.
    + intros [(addr & Hin & Hc)|[(addr & _ & Hc)|(addr & _ & Hc)]].
      * exists addr. split; [exact Hin|]. exact (proj1 (dns_callers_spec _ _ _ _) Hc).
      * apply dot_callers_shape in Hc as (? & ? & ?); discriminate.
      * apply doh_callers_shape in Hc; discriminate.
    + intros (addr & Hin & H). left. exists addr. split; [exact Hin|].
      exact (proj2 (dns_callers_spec _ _ _ _) H).
  - intros addr Ht. exact (HasSuffix_slice addr "/tcp" Ht).
Qed.

(** One entry of [conf.DoT] yields a caller iff it has the form
    [upstream@serverName] with exactly one [@] and both parts non-empty. *)
Lemma dot_callers_spec (d : option string) (addr a sn : string) :
  In (outbound.DoTCaller a sn d) (conf.dot_callers d addr) <->
  exists a0, gostrings.Split addr "@" = [a0; sn] /\ a0 <> "" /\ sn <> "" /\
    a = (if gostrings.Contains a0 ":" then a0 else a0 +:+ ":853").
Proof.
  unfold conf.dot_callers.
  destruct (gostrings.Split addr "@") as [|a0 [|sn0 [|x t]]]; cbn;
    try (split; [tauto|intros (? & [=] & _)]).
  destruct (String.eqb_spec a0 ""), (String.eqb_spec sn0 ""); cbn;
    try (split; [tauto|intros (? & [= -> ->] & ? & ? & _); contradiction]).
  split.
  - intros [[= Ha Hsn]|[]]. subst. exists a0. auto.
  - intros (a1 & [= <- <-] & _ & _ & ->). left. reflexivity.
Qed.

(** C5: [GenCallers] emits a DoT caller iff some entry of [conf.DoT] splits
    on [@] into exactly two non-empty parts, an upstream address (to which
    [":853"] is appended when it has no [":"]) and the server name; an entry
    yields no caller at all unless it has that form. *)
Theorem GenCallers_dot_server_name (g : conf.Group) (a sn : string) :
  (In (outbound.DoTCaller a sn (conf.dialer_of g)) (conf.GenCallers g) <->
   exists addr a0, In addr (conf.DoT g) /\
     addr = a0 +:+ "@" +:+ sn /\ ~ In "@"%char (las a0) /\ ~ In "@"%char (las sn) /\
     a0 <> "" /\ sn <> "" /\
     a = (if gostrings.Contains a0 ":" then a0 else a0 +:+ ":853")) /\
  (forall addr, conf.dot_callers (conf.dialer_of g) addr <> [] <->
     exists a0 sn0, gostrings.Split addr "@" = [a0; sn0] /\ a0 <> "" /\ sn0 <> "").
Proof.
  split.
  - unfold conf.GenCallers. rewrite !in_app_iff, !in_flat_map. split.
    + intros [(addr & _ & Hc)|[(addr & Hin & Hc)|(addr & _ & Hc)]].
      * apply dns_callers_shape in Hc as (? & ? & ?); discriminate.
      * apply dot_callers_spec in Hc as (a0 & Hs & Ha0 & Hsn & Ha).
        apply Split_two in Hs as (Haddr & Hn0 & Hn1).
        exists addr, a0. repeat split; assumption.
      * apply doh_callers_shape in Hc; discriminate.
    + intros (addr & a0 & Hin & Haddr & Hn0 & Hn1 & Ha0 & Hsn & Ha).
      right; left. exists addr. split; [exact Hin|].
      apply dot_callers_spec. exists a0. repeat split; try assumption.
      apply Split_two. repeat split; assumption.
  - intros addr. unfold conf.dot_callers.
    destruct (gostrings.Split addr "@") as [|a0 [|sn0 [|x t]]]; cbn;
      try (split; [tauto|intros (? & ? & [=] & _)]).
    destruct (String.eqb_spec a0 ""), (String.eqb_spec sn0 ""); cbn;
      try (split; [tauto|intros (? & ? & [= -> ->] & ? & ?); contradiction]).
    split; [intros _; exists a0, sn0; auto|discriminate].
Qed.

(* ------------------------------------------------------------------ *)
(** ** The regular-expression matcher *)

Module regexp_facts.
Import regexp.

Lemma lang_Eps_inv (s : list ascii) : lang Eps s -> s = [].
Proof. intros H; inversion H; reflexivity. Qed.

Lemma lang_Chr_inv (c : ascii) (s : list ascii) : lang (Chr c) s -> s = [c].
Proof. intros H; inversion H; reflexivity. Qed.

Lemma lang_AnyNL_inv (s : list ascii) :
  lang AnyNL s -> exists c, s = [c] /\ c <> newline.
Proof. intros H; inversion H; eauto. Qed.

Lemma lang_Cat_inv (r1 r2 : re) (s : list ascii) :
  lang (Cat r1 r2) s -> exists s1 s2, s = s1 ++ s2 /\ lang r1 s1 /\ lang r2 s2.
Proof. intros H; inversion H; eauto. Qed.

Lemma lang_Alt_inv (r1 r2 : re) (s : list ascii) :
  lang (Alt r1 r2) s -> lang r1 s \/ lang r2 s.
Proof. intros H; inversion H; auto. Qed.

Lemma nullable_correct (r : re) : nullable r = true <-> lang r [].
Proof.
  induction r as [| | c | | r1 IH1 r2 IH2 | r1 IH1 r2 IH2 | r IH]; cbn.
  - split; intros H; [discriminate|inversion H].
  - split; intros _; [constructor|reflexivity].
  - split; intros H; [discriminate|inversion H].
  - split; intros H; [discriminate|inversion H].
  - rewrite andb_true_iff, IH1, IH2. split.
    + intros [H1 H2]. change (@nil ascii) with (@nil ascii ++ []). constructor; assumption.
    + intros H. apply lang_Cat_inv in H as (s1 & s2 & Heq & H1 & H2).
      symmetry in Heq. apply app_eq_nil in Heq as [-> ->]. split; assumption.
  - rewrite orb_true_iff, IH1, IH2. split.
    + intros [H|H]; [apply L_alt_l|apply L_alt_r]; exact H.
    + apply lang_Alt_inv.
  - split; intros _; [constructor|reflexivity].
Qed.

Lemma deriv_correct (a : ascii) (r : re) (s : list ascii) :
  lang (deriv a r) s <-> lang r (a :: s).
Proof.
  revert s; induction r as [| | c | | r1 IH1 r2 IH2 | r1 IH1 r2 IH2 | r IH];
    intros s; cbn.
  - split; intros H; inversion H.
  - split; intros H; [inversion H|apply lang_Eps_inv in H; discriminate].
  - destruct (Ascii.eqb_spec a c) as [->|Hne].
    + split; intros H.
      * apply lang_Eps_inv in H as ->. constructor.
      * apply lang_Chr_inv in H. injection H as ->. constructor.
    + split; intros H; [inversion H|].
      apply lang_Chr_inv in H. injection H as -> _. contradiction.
  - destruct (Ascii.eqb_spec a newline) as [->|Hne].
    + split; intros H; [inversion H|].
      apply lang_AnyNL_inv in H as (c & [= -> ->] & Hc). contradiction.
    + split; intros H.
      * apply lang_Eps_inv in H as ->. constructor. exact Hne.
      * apply lang_AnyNL_inv in H as (c & [= -> ->] & Hc). constructor.
  - destruct (nullable r1) eqn:Hn.
    + split.
      * intros H. apply lang_Alt_inv in H as [H|H].
        -- apply lang_Cat_inv in H as (s1 & s2 & -> & H1 & H2).
           change (a :: s1 ++ s2) with ((a :: s1) ++ s2).
           constructor; [apply IH1|]; assumption.
        -- change (a :: s) with ([] ++ a :: s).
           constructor; [apply nullable_correct; exact Hn|apply IH2; exact H].
      * intros H. apply lang_Cat_inv in H as (s1 & s2 & Heq & H1 & H2).
        destruct s1 as [|b s1]; cbn in Heq.
        -- subst. apply L_alt_r, IH2. exact H2.
        -- injection Heq as -> ->. apply L_alt_l. constructor; [apply IH1|]; assumption.
    + split.
      * intros H. apply lang_Cat_inv in H as (s1 & s2 & -> & H1 & H2).
        change (a :: s1 ++ s2) with ((a :: s1) ++ s2).
        constructor; [apply IH1|]; assumption.
      * intros H. apply lang_Cat_inv in H as (s1 & s2 & Heq & H1 & H2).
        destruct s1 as [|b s1]; cbn in Heq.
        -- apply nullable_correct in H1. congruence.
        -- injection Heq as -> ->. constructor; [apply IH1|]; assumption.
  - split; intros H; apply lang_Alt_inv in H as [H|H];
      solve [apply L_alt_l, IH1; exact H|apply L_alt_r, IH2; exact H].
  - split.
    + intros H. apply lang_Cat_inv in H as (s1 & s2 & -> & H1 & H2).
      change (a :: s1 ++ s2) with ((a :: s1) ++ s2).
      constructor; [apply IH|]; assumption.
    + intros H. remember (Star r) as R eqn:ER. remember (a :: s) as w eqn:Ew.
      revert s Ew. induction H as [| | | | | | |r' s1 s2 H1 _ H2 IH2];
        intros s' Ew; try discriminate.
      injection ER as ->. destruct s1 as [|b s1]; cbn in Ew.
      * apply IH2; [reflexivity|exact Ew].
      * injection Ew as Hb Hs. subst b s'. constructor; [apply IH|]; assumption.
Qed.

Lemma matches_correct (r : re) (s : list ascii) : matches r s = true <-> lang r s.
Proof.
  revert r; induction s as [|a s IH]; intros r; cbn.
  - apply nullable_correct.
  - rewrite IH. apply deriv_correct.
Qed.

End regexp_facts.

Module doh_facts.
Import regexp regexp_facts.

Lemma lang_lit (w s : list ascii) : lang (lit w) s <-> s = w.
Proof.
  revert s; induction w as [|c w IH]; intros s; cbn.
  - split; [apply lang_Eps_inv|intros ->; constructor].
  - split.
    + intros H. apply lang_Cat_inv in H as (s1 & s2 & -> & H1 & H2).
      apply lang_Chr_inv in H1 as ->. apply IH in H2 as ->. reflexivity.
    + intros ->. change (c :: w) with ([c] ++ w). constructor; [constructor|apply IH; reflexivity].
Qed.

Lemma lang_star_any (s : list ascii) :
  lang (Star AnyNL) s <-> Forall (λ c, c <> newline) s.
Proof.
  split.
  - intros H. remember (Star AnyNL) as R eqn:ER.
    induction H as [| | | | | |r|r s1 s2 H1 _ H2 IH2]; try discriminate.
    + constructor.
    + injection ER as ->. apply Forall_app. split; [|apply IH2; reflexivity].
      apply lang_AnyNL_inv in H1 as (c & -> & Hc). constructor; [exact Hc|constructor].
  - induction s as [|c s IH]; intros H; [constructor|].
    inversion H as [|? ? Hc Hs]; subst.
    change (c :: s) with ([c] ++ s). constructor; [constructor; exact Hc|apply IH; exact Hs].
Qed.

Lemma lang_plus_any (s : list ascii) :
  lang (Plus AnyNL) s <-> s <> [] /\ Forall (λ c, c <> newline) s.
Proof.
  unfold Plus. split.
  - intros H. apply lang_Cat_inv in H as (s1 & s2 & -> & H1 & H2).
    apply lang_AnyNL_inv in H1 as (c & -> & Hc). apply lang_star_any in H2.
    split; [discriminate|constructor; assumption].
  - intros [Hne H]. destruct s as [|c s]; [contradiction|].
    inversion H as [|? ? Hc Hs]; subst.
    change (c :: s) with ([c] ++ s). constructor; [constructor; exact Hc|].
    apply lang_star_any. exact Hs.
Qed.

Lemma lang_dohReg (s : list ascii) :
  lang conf.dohReg s <->
  exists m, s = las "https://" ++ m ++ las "/dns-query" /\
    m <> [] /\ Forall (λ c, c <> newline) m.
Proof.
  unfold conf.dohReg. split.
  - intros H. apply lang_Cat_inv in H as (s1 & s2 & -> & H1 & H2).
    apply lang_lit in H1 as ->.
    apply lang_Cat_inv in H2 as (m & s3 & -> & H2 & H3).
    apply lang_lit in H3 as ->. apply lang_plus_any in H2 as [Hne Hm].
    exists m. auto.
  - intros (m & -> & Hne & Hm). constructor; [apply lang_lit; reflexivity|].
    constructor; [apply lang_plus_any; auto|apply lang_lit; reflexivity].
Qed.

End doh_facts.

(** C6: [GenCallers] emits a DoH caller for [url] iff [url] is an entry of
    [conf.DoH] matching [^https://.+/dns-query$]; entries that do not match
    yield nothing.  A string matches iff it is ["https://"], then at least
    one character, none of them a newline, then ["/dns-query"]. *)
Theorem GenCallers_doh_pattern (g : conf.Group) (url : string) :
  (In (outbound.DoHCaller url (conf.dialer_of g)) (conf.GenCallers g) <->
   In url (conf.DoH g) /\ regexp.MatchString conf.dohReg url = true) /\
  (regexp.MatchString conf.dohReg url = true <->
   exists m, url = "https://" +:+ m +:+ "/dns-query" /\ m <> "" /\
     Forall (λ c, c <> regexp.newline) (las m)).
Proof.
  split.
  - unfold conf.GenCallers. rewrite !in_app_iff, !in_flat_map. split.
    + intros [(addr & _ & Hc)|[(addr & _ & Hc)|(addr & Hin & Hc)]].
      * apply dns_callers_shape in Hc as (? & ? & ?); discriminate.
      * apply dot_callers_shape in Hc as (? & ? & ?); discriminate.
      * pose proof (doh_callers_shape _ _ _ Hc) as Heq. injection Heq as <-.
        split; [exact Hin|]. unfold conf.doh_callers in Hc.
        destruct (regexp.MatchString conf.dohReg url); [reflexivity|destruct Hc].
    + intros [Hin Hm]. right; right. exists url. split; [exact Hin|].
      unfold conf.doh_callers. rewrite Hm. left. reflexivity.
  - unfold regexp.MatchString. rewrite regexp_facts.matches_correct, doh_facts.lang_dohReg.
    split.
    + intros (m & Hs & Hne & Hm). exists (String.string_of_list_ascii m).
      rewrite String.list_ascii_of_string_of_list_ascii. split; [|split; [|exact Hm]].
      * apply las_inj. rewrite !las_app, String.list_ascii_of_string_of_list_ascii. exact Hs.
      * intros He. apply Hne. rewrite <- (String.list_ascii_of_string_of_list_ascii m), He.
        reflexivity.
    + intros (m & -> & Hne & Hm). exists (las m). rewrite !las_app.
      split; [reflexivity|split; [|exact Hm]].
      intros He. apply Hne. apply las_inj. exact He.
Qed.

(* ------------------------------------------------------------------ *)
(** ** The group loop of NewHandler *)

Lemma build_groups_lookup (env : conf.Env) (l : list (string * conf.Group))
    (acc m : gmap string inbound.Group) :
  conf.build_groups env l acc = Ok m ->
  forall n hg, m !! n = Some hg ->
    acc !! n = Some hg \/
    exists g ips, In (n, g) l /\ conf.GenIPSet env g = Ok ips /\
      hg = conf.handler_group g ips.
Proof.
  revert acc; induction l as [|[name group] l IH]; intros acc; cbn.
  - intros [= ->] n hg Hn. left. exact Hn.
  - destruct (conf.GenIPSet env group) as [ips| |] eqn:Hips; cbn;
      [|discriminate|discriminate].
    intros Hb n hg Hn. destruct (IH _ Hb n hg Hn) as [Ha|(g & ips' & Hin & Hg & ->)].
    + destruct (decide (n = name)) as [->|Hne].
      * rewrite lookup_insert_eq in Ha. injection Ha as <-.
        right. exists group, ips. auto.
      * rewrite lookup_insert_ne in Ha by congruence. left. exact Ha.
    + right. exists g, ips'. auto.
Qed.

Lemma build_groups_ok (env : conf.Env) (l : list (string * conf.Group))
    (acc : gmap string inbound.Group) :
  (forall n g, In (n, g) l -> exists ips, conf.GenIPSet env g = Ok ips) ->
  NoDup l.*1 ->
  exists m, conf.build_groups env l acc = Ok m /\
    (forall n g, In (n, g) l ->
       exists ips, conf.GenIPSet env g = Ok ips /\ m !! n = Some (conf.handler_group g ips)) /\
    (forall n, n ∉ l.*1 -> m !! n = acc !! n).
Proof.
  revert acc; induction l as [|[name group] l IH]; intros acc Hips Hnd; cbn.
  - exists acc. split; [reflexivity|]. split; [intros ? ? []|reflexivity].
  - destruct (Hips name group (or_introl eq_refl)) as [ips Hg]. rewrite Hg. cbn.
    apply NoDup_cons in Hnd as [Hnot Hnd].
    destruct (IH (<[name := conf.handler_group group ips]> acc)) as (m & Hb & Hin & Hout);
      [intros n g H; apply (Hips n g); right; exact H|exact Hnd|].
    exists m. split; [exact Hb|]. split.
    + intros n g [[= <- <-]|H].
      * exists ips. split; [exact Hg|]. rewrite Hout by exact Hnot.
        apply lookup_insert_eq.
      * exact (Hin n g H).
    + intros n Hn. cbn in Hn. apply not_elem_of_cons in Hn as [Hne Hn].
      rewrite Hout by exact Hn. apply lookup_insert_ne. congruence.
Qed.

(** The group loop reads nothing of the environment but [ipset.New]. *)
Lemma build_groups_hosts_files (env : conf.Env) (hf : string -> bool) l acc :
  conf.build_groups (observe.with_hosts_files env hf) l acc = conf.build_groups env l acc.
Proof.
  revert acc; induction l as [|[name group] l IH]; intros acc; cbn; [reflexivity|].
  unfold conf.GenIPSet; cbn. destruct (negb _); [destruct (conf.env_ipset env _ _)|]; cbn;
    try rewrite IH; reflexivity.
Qed.

Lemma check_groups_ok (groups : gmap string inbound.Group) (c d : inbound.Group) :
  groups !! "clean" = Some c -> inbound.Callers c <> [] ->
  groups !! "dirty" = Some d -> inbound.Callers d <> [] ->
  conf.check_groups groups = Ok tt.
Proof.
  intros Hc Hcn Hd Hdn. unfold conf.check_groups.
  destruct (Nat.leb_spec (size groups) 0) as [Hs|Hs].
  - exfalso. assert (Hz : size groups = 0%nat) by lia.
    apply map_size_empty_iff in Hz. subst groups. rewrite lookup_empty in Hc. discriminate.
  - rewrite Hc, Hd. cbn.
    destruct (inbound.Callers c) as [|x xs]; [contradiction|].
    destruct (inbound.Callers d) as [|y ys]; [contradiction|]. reflexivity.
Qed.

(* ------------------------------------------------------------------ *)
(** ** NewHandler *)

Lemma SetDefault_Cache (c : conf.Conf) : conf.Cache (conf.SetDefault c) = conf.Cache c.
Proof. apply SetDefault_fields. Qed.

Lemma SetDefault_Groups (c : conf.Conf) : conf.Groups (conf.SetDefault c) = conf.Groups c.
Proof. apply SetDefault_fields. Qed.

(** Once the file is decoded, the gfwlist and CN-IP files are read and the
    [cache] section exists, [NewHandler] is the group loop followed by the
    validity check. *)
Lemma NewHandler_steps (env : conf.Env) (fn : string) (config : conf.Conf)
    (text cidrs : string) (cc : conf.CacheT) :
  conf.env_toml env fn = Some config ->
  conf.env_gfwlist env (conf.GFWList (conf.SetDefault config)) = Some text ->
  conf.env_cnip env (conf.CNIP (conf.SetDefault config)) = Some cidrs ->
  conf.Cache config = Some cc ->
  exists dc, conf.NewHandler env fn =
    (groups ← conf.build_groups env (map_to_list (conf.Groups config)) ∅;
     _ ← conf.check_groups groups;
     Ok (inbound.mkHandler (conf.Listen (conf.SetDefault config))
           (matcher.NewABPByText text) (cache.mkRamSet cidrs)
           (conf.GenHostsReader env (conf.SetDefault config)) dc groups)).
Proof.
  intros Ht Hg Hc Hcc.
  unfold conf.NewHandler. rewrite Ht.
  unfold conf.NewABPByFile. rewrite Hg. unfold conf.NewRamSetByFile. rewrite Hc.
  assert (Hcc' : conf.Cache (conf.SetDefault config) = Some cc)
    by (rewrite SetDefault_Cache; exact Hcc).
  rewrite (GenCache_result _ _ Hcc').
  cbn [mbind Res_bind conf.Groups conf.Listen]. rewrite SetDefault_Groups.
  eexists. reflexivity.
Qed.

(** C8 (as stated, refuted): the [clean] and [dirty] groups of the sample
    file have callers, yet [NewHandler] fails when the gfwlist file cannot
    be read. *)
Lemma NewHandler_fails_without_gfwlist :
  conf.GenCallers fixtures.clean_group <> [] /\
  conf.GenCallers fixtures.dirty_group <> [] /\
  conf.Groups fixtures.sample_conf !! "clean" = Some fixtures.clean_group /\
  conf.Groups fixtures.sample_conf !! "dirty" = Some fixtures.dirty_group /\
  conf.NewHandler (fixtures.env_without_gfwlist fixtures.sample_conf) "ts-dns.toml" =
    Err "read gfwlist error".
Proof.
  repeat split; try discriminate; vm_compute; reflexivity.
Qed.

(** C8 (amended): when the file decodes, the gfwlist and CN-IP files are
    read, the file has a [cache] section and every configured ipset is
    created, [NewHandler] succeeds as soon as [clean] and [dirty] have a
    caller each, whatever the other groups hold; every configured group,
    one without callers included, is in the handler's group map with the
    callers [GenCallers] built for it. *)
Theorem NewHandler_accepts_empty_custom_groups (env : conf.Env) (fn : string)
    (config : conf.Conf) (text cidrs : string) (cc : conf.CacheT)
    (gc gd : conf.Group)
    (Htoml : conf.env_toml env fn = Some config)
    (Hgfw : conf.env_gfwlist env (conf.GFWList (conf.SetDefault config)) = Some text)
    (Hcnip : conf.env_cnip env (conf.CNIP (conf.SetDefault config)) = Some cidrs)
    (Hcache : conf.Cache config = Some cc)
    (Hips : forall n g, conf.Groups config !! n = Some g -> conf.IPSet g <> "" ->
              conf.env_ipset env (conf.IPSet g) (conf.IPSetTTL g) = true)
    (Hclean : conf.Groups config !! "clean" = Some gc)
    (Hdirty : conf.Groups config !! "dirty" = Some gd)
    (Hcn : conf.GenCallers gc <> [])
    (Hdn : conf.GenCallers gd <> []) :
  exists h, conf.NewHandler env fn = Ok h /\
    forall n g, conf.Groups config !! n = Some g ->
      exists hg, inbound.Groups h !! n = Some hg /\ inbound.Callers hg = conf.GenCallers g.
Proof.
  destruct (NewHandler_steps env fn config text cidrs cc Htoml Hgfw Hcnip Hcache)
    as [dc ->].
  assert (Hin : forall n g, conf.Groups config !! n = Some g <->
                  In (n, g) (map_to_list (conf.Groups config)))
    by (intros n g; rewrite <- list_elem_of_In; symmetry; apply elem_of_map_to_list).
  destruct (build_groups_ok env (map_to_list (conf.Groups config)) ∅)
    as (m & Hb & Hm & _).
  { intros n g Hng. apply Hin in Hng. unfold conf.GenIPSet.
    destruct (String.eqb_spec (conf.IPSet g) ""); cbn; [eexists; reflexivity|].
    rewrite (Hips n g Hng n0). eexists; reflexivity. }
  { apply NoDup_fst_map_to_list. }
  rewrite Hb. cbn [mbind Res_bind].
  destruct (Hm "clean" gc (proj1 (Hin _ _) Hclean)) as (ipc & _ & Hmc).
  destruct (Hm "dirty" gd (proj1 (Hin _ _) Hdirty)) as (ipd & _ & Hmd).
  rewrite (check_groups_ok m _ _ Hmc Hcn Hmd Hdn). cbn.
  eexists. split; [reflexivity|].
  intros n g Hng. destruct (Hm n g (proj1 (Hin _ _) Hng)) as (ips & _ & Hmn).
  eexists. split; [exact Hmn|reflexivity].
Qed.

Lemma NewHandler_accepts_empty_custom_groups_witness :
  exists h, conf.NewHandler (fixtures.sample_env fixtures.sample_conf) "ts-dns.toml" = Ok h /\
    forall n g, conf.Groups fixtures.sample_conf !! n = Some g ->
      exists hg, inbound.Groups h !! n = Some hg /\ inbound.Callers hg = conf.GenCallers g.
Proof.
  apply (NewHandler_accepts_empty_custom_groups
           (fixtures.sample_env fixtures.sample_conf) "ts-dns.toml" fixtures.sample_conf
           "google.com" "1.0.0.0/24" (fixtures.cache_section 4096)
           fixtures.clean_group fixtures.dirty_group);
    try reflexivity; discriminate.
Defined.

(** C1 (code defect): a file whose [groups] has a [clean] group with
    callers but no [dirty] group makes [NewHandler] panic with a nil
    pointer dereference at [handler.Groups["dirty"].Callers], instead of
    returning the error "dns of clean/dirty group cannot be empty". *)
Theorem NewHandler_missing_dirty_panics :
  conf.Groups fixtures.no_dirty_conf !! "dirty" = None /\
  conf.GenCallers fixtures.clean_group <> [] /\
  conf.NewHandler (fixtures.sample_env fixtures.no_dirty_conf) "ts-dns.toml" =
    Panic "invalid memory address or nil pointer dereference".
Proof.
  split; [vm_compute; reflexivity|]. split; [discriminate|].
  vm_compute. reflexivity.
Qed.

Lemma GenCache_Groups (c c' : conf.Conf) (dc : cache.DNSCache) :
  conf.GenCache c = Ok (c', dc) -> conf.Groups c' = conf.Groups c.
Proof.
  unfold conf.GenCache. destruct (conf.Cache c); cbn; [|discriminate].
  intros [= <- _]. reflexivity.
Qed.

(** C3 (as stated, refuted): with [google.com] in the gfwlist only, the
    handler's gfwlist matcher matches it but the [clean] group's matcher
    does not. *)
Lemma group_matcher_misses_gfwlist_domain :
  exists h hg,
    conf.NewHandler (fixtures.sample_env fixtures.sample_conf) "ts-dns.toml" = Ok h /\
    matcher.Match (inbound.GFWMatcher h) "google.com" = true /\
    inbound.Groups h !! "clean" = Some hg /\
    matcher.Match (inbound.Matcher hg) "google.com" = false.
Proof.
  case_eq (conf.NewHandler (fixtures.sample_env fixtures.sample_conf) "ts-dns.toml").
  - intros h Hh. pose proof Hh as Hh'. vm_compute in Hh'. injection Hh' as <-.
    eexists; eexists. split; [exact Hh|]. split; [vm_compute; reflexivity|].
    split; [vm_compute; reflexivity|vm_compute; reflexivity].
  - intros e He. vm_compute in He. discriminate.
  - intros e He. vm_compute in He. discriminate.
Qed.

(** C3 (amended): the gfwlist is loaded into the handler's own matcher
    [GFWMatcher]; the matcher of each routing group is built from that
    group's inline [rules] alone, joined by newlines. *)
Theorem NewHandler_group_matchers_from_inline_rules (env : conf.Env) (fn : string)
    (config : conf.Conf) (h : inbound.Handler)
    (Htoml : conf.env_toml env fn = Some config)
    (Hok : conf.NewHandler env fn = Ok h) :
  (exists text, conf.env_gfwlist env (conf.GFWList (conf.SetDefault config)) = Some text /\
     inbound.GFWMatcher h = matcher.NewABPByText text) /\
  (forall n hg, inbound.Groups h !! n = Some hg ->
     exists g, conf.Groups config !! n = Some g /\
       inbound.Matcher hg =
         matcher.NewABPByText (gostrings.Join (conf.Rules g) matcher.newline_str)).
Proof.
  unfold conf.NewHandler in Hok. rewrite Htoml in Hok.
  unfold conf.NewABPByFile in Hok.
  destruct (conf.env_gfwlist env _) as [text|] eqn:Hg; [|discriminate].
  unfold conf.NewRamSetByFile in Hok.
  destruct (conf.env_cnip env _) as [cidrs|] eqn:Hc; [|discriminate].
  cbn [mbind Res_bind] in Hok.
  destruct (conf.GenCache (conf.SetDefault config)) as [[c' dc]| |] eqn:Hgc;
    cbn [mbind Res_bind] in Hok; try discriminate.
  destruct (conf.build_groups env (map_to_list (conf.Groups c')) ∅) as [m| |] eqn:Hb;
    cbn [mbind Res_bind] in Hok; try discriminate.
  destruct (conf.check_groups m) as [[]| |]; cbn [mbind Res_bind] in Hok; try discriminate.
  injection Hok as <-. cbn. split; [exists text; split; reflexivity|].
  intros n hg Hn.
  destruct (build_groups_lookup _ _ _ _ Hb n hg Hn) as [He|(g & ips & Hin & _ & ->)].
  - rewrite lookup_empty in He. discriminate.
  - exists g. split; [|reflexivity].
    rewrite (GenCache_Groups _ _ _ Hgc), SetDefault_Groups in Hin.
    apply elem_of_map_to_list. apply list_elem_of_In. exact Hin.
Qed.

Lemma NewHandler_group_matchers_from_inline_rules_witness :
  exists h, conf.NewHandler (fixtures.sample_env fixtures.sample_conf) "ts-dns.toml" = Ok h /\
  (exists text,
     conf.env_gfwlist (fixtures.sample_env fixtures.sample_conf)
       (conf.GFWList (conf.SetDefault fixtures.sample_conf)) = Some text /\
     inbound.GFWMatcher h = matcher.NewABPByText text) /\
  (forall n hg, inbound.Groups h !! n = Some hg ->
     exists g, conf.Groups fixtures.sample_conf !! n = Some g /\
       inbound.Matcher hg =
         matcher.NewABPByText (gostrings.Join (conf.Rules g) matcher.newline_str)).
Proof.
  case_eq (conf.NewHandler (fixtures.sample_env fixtures.sample_conf) "ts-dns.toml").
  - intros h Hh. exists h. split; [reflexivity|].
    exact (NewHandler_group_matchers_from_inline_rules
             (fixtures.sample_env fixtures.sample_conf) "ts-dns.toml"
             fixtures.sample_conf h eq_refl Hh).
  - intros e He. vm_compute in He. discriminate.
  - intros e He. vm_compute in He. discriminate.
Defined.

(** C7: [GenHostsReader] returns a reader for the inline [hosts] map (when
    it is not empty) followed by one reader per readable hosts file, in
    order, skipping the files that cannot be read; and whether hosts files
    can be read changes nothing in the outcome of [NewHandler] but its
    list of hosts readers: it never makes [NewHandler] fail. *)
Theorem GenHostsReader_swallows_unreadable (env : conf.Env) (c : conf.Conf) (fn : string) :
  conf.GenHostsReader env c =
    (if decide (conf.Hosts c = ∅) then []
     else [hosts.TextReader
             (gostrings.Join
                ((λ '(hostname, ip), ip +:+ " " +:+ hostname) <$> map_to_list (conf.Hosts c))
                matcher.newline_str)]) ++
    map (λ f, hosts.FileReader f 0) (List.filter (conf.env_hosts_file env) (conf.HostsFiles c)) /\
  forall hf,
    observe.without_readers (conf.NewHandler (observe.with_hosts_files env hf) fn) =
    observe.without_readers (conf.NewHandler env fn).
Proof.
  split.
  - unfold conf.GenHostsReader. f_equal.
    + destruct (decide (conf.Hosts c = ∅)) as [He|Hne].
      * rewrite He, map_to_list_empty. reflexivity.
      * destruct (map_to_list (conf.Hosts c)) as [|[k v] l] eqn:E;
          [apply map_to_list_empty_iff in E; contradiction|reflexivity].
    + induction (conf.HostsFiles c) as [|f fs IH]; [reflexivity|].
      simpl. unfold conf.NewReaderByFile at 1.
      destruct (conf.env_hosts_file env f); simpl; rewrite IH; reflexivity.
  - intros hf. unfold conf.NewHandler, conf.NewABPByFile, conf.NewRamSetByFile.
    cbn [observe.with_hosts_files conf.env_toml conf.env_gfwlist conf.env_cnip].
    destruct (conf.env_toml env fn) as [config|]; [|reflexivity].
    destruct (conf.env_gfwlist env _); [|reflexivity].
    destruct (conf.env_cnip env _); [|reflexivity].
    cbn [mbind Res_bind].
    destruct (conf.GenCache (conf.SetDefault config)) as [[c' dc]| |];
      cbn [mbind Res_bind]; try reflexivity.
    rewrite build_groups_hosts_files.
    destruct (conf.build_groups env _ _); cbn [mbind Res_bind]; try reflexivity.
    destruct (conf.check_groups _); reflexivity.
Qed.

(* ------------------------------------------------------------------ *)
(** ** Further properties of the loader *)

Lemma map_to_list_In {A} (G : gmap string A) (n : string) (g : A) :
  G !! n = Some g <-> In (n, g) (map_to_list G).
Proof. rewrite <- list_elem_of_In. symmetry. apply elem_of_map_to_list. Qed.

Lemma map_to_list_fst_None {A} (G : gmap string A) (n : string) :
  G !! n = None -> n ∉ (map_to_list G).*1.
Proof.
  intros Hn Hin. apply list_elem_of_fmap in Hin as ([n' g] & Heq & Hin).
  cbn in Heq. subst n'. apply elem_of_map_to_list in Hin. congruence.
Qed.

Lemma GenIPSet_cases (env : conf.Env) (g : conf.Group) :
  (conf.IPSet g = "" /\ conf.GenIPSet env g = Ok None) \/
  (conf.IPSet g <> "" /\ conf.env_ipset env (conf.IPSet g) (conf.IPSetTTL g) = true /\
   conf.GenIPSet env g =
     Ok (Some (ipset.mkIPSet (conf.IPSet g) "hash:ip" (conf.IPSetTTL g)))) \/
  (conf.IPSet g <> "" /\ conf.env_ipset env (conf.IPSet g) (conf.IPSetTTL g) = false /\
   conf.GenIPSet env g = Err "ipset: cannot create set").
Proof.
  unfold conf.GenIPSet. destruct (String.eqb_spec (conf.IPSet g) "") as [He|Hne]; cbn.
  - left. auto.
  - right. destruct (conf.env_ipset env _ _) eqn:Hi; [left|right]; auto.
Qed.


Lemma build_groups_ok_inv (env : conf.Env) (l : list (string * conf.Group))
    (acc m : gmap string inbound.Group) :
  conf.build_groups env l acc = Ok m -> NoDup l.*1 ->
  (forall n g, In (n, g) l ->
     exists ips, conf.GenIPSet env g = Ok ips /\ m !! n = Some (conf.handler_group g ips)) /\
  (forall n, n ∉ l.*1 -> m !! n = acc !! n).
Proof.
  revert acc; induction l as [|[name group] l IH]; intros acc Hb Hnd; cbn in Hb.
  - injection Hb as <-. split; [intros ? ? []|reflexivity].
  - destruct (conf.GenIPSet env group) as [ips| |] eqn:Hg; cbn in Hb; try discriminate.
    apply NoDup_cons in Hnd as [Hnot Hnd].
    destruct (IH _ Hb Hnd) as [Hin Hout]. split.
    + intros n g [[= <- <-]|H].
      * exists ips. split; [exact Hg|]. rewrite Hout by exact Hnot.
        apply lookup_insert_eq.
      * exact (Hin n g H).
    + intros n Hn. cbn in Hn. apply not_elem_of_cons in Hn as [Hne Hn].
      rewrite Hout by exact Hn. apply lookup_insert_ne. congruence.
Qed.

Lemma build_groups_err (env : conf.Env) (l : list (string * conf.Group))
    (acc : gmap string inbound.Group) (n : string) (g : conf.Group) (e : string) :
  In (n, g) l -> conf.GenIPSet env g = Err e ->
  exists e', conf.build_groups env l acc = Err e'.
Proof.
  revert acc; induction l as [|[name group] l IH]; intros acc Hin He; [destruct Hin|].
  cbn. destruct Hin as [[= -> ->]|Hin].
  - rewrite He. cbn. eauto.
  - destruct (conf.GenIPSet env group) as [ips|e'|e'] eqn:Hg; cbn; eauto.
    destruct (GenIPSet_cases env group) as [[_ H]|[[_ [_ H]]|[_ [_ H]]]]; congruence.
Qed.

Lemma check_groups_ok_inv (groups : gmap string inbound.Group) :
  conf.check_groups groups = Ok tt ->
  exists c d, groups !! "clean" = Some c /\ inbound.Callers c <> [] /\
              groups !! "dirty" = Some d /\ inbound.Callers d <> [].
Proof.
  unfold conf.check_groups. destruct (Nat.leb _ _); [discriminate|].
  destruct (groups !! "clean") as [c|] eqn:Hc; cbn; [|discriminate].
  destruct (inbound.Callers c) as [|x xs] eqn:Ec; cbn; [discriminate|].
  destruct (groups !! "dirty") as [d|] eqn:Hd; cbn; [|discriminate].
  destruct (inbound.Callers d) as [|y ys] eqn:Ed; cbn; [discriminate|].
  intros _. exists c, d. rewrite Ec, Ed. repeat split; discriminate.
Qed.

Lemma GenCache_Listen (c c' : conf.Conf) (dc : cache.DNSCache) :
  conf.GenCache c = Ok (c', dc) -> conf.Listen c' = conf.Listen c.
Proof.
  unfold conf.GenCache. destruct (conf.Cache c); cbn; [|discriminate].
  intros [= <- _]. reflexivity.
Qed.

(** What a successful [NewHandler] went through. *)
Lemma NewHandler_ok_inv (env : conf.Env) (fn : string) (h : inbound.Handler) :
  conf.NewHandler env fn = Ok h ->
  exists config text cidrs c' dc m,
    conf.env_toml env fn = Some config /\
    conf.env_gfwlist env (conf.GFWList (conf.SetDefault config)) = Some text /\
    conf.env_cnip env (conf.CNIP (conf.SetDefault config)) = Some cidrs /\
    conf.GenCache (conf.SetDefault config) = Ok (c', dc) /\
    conf.build_groups env (map_to_list (conf.Groups config)) ∅ = Ok m /\
    conf.check_groups m = Ok tt /\
    h = inbound.mkHandler (conf.Listen (conf.SetDefault config)) (matcher.NewABPByText text)
          (cache.mkRamSet cidrs) (conf.GenHostsReader env (conf.SetDefault config)) dc m.
Proof.
  intros Hok. unfold conf.NewHandler in Hok.
  destruct (conf.env_toml env fn) as [config|] eqn:Ht; [|discriminate].
  unfold conf.NewABPByFile in Hok.
  destruct (conf.env_gfwlist env _) as [text|] eqn:Hg; [|discriminate].
  unfold conf.NewRamSetByFile in Hok.
  destruct (conf.env_cnip env _) as [cidrs|] eqn:Hc; [|discriminate].
  cbn [mbind Res_bind] in Hok.
  destruct (conf.GenCache (conf.SetDefault config)) as [[c' dc]| |] eqn:Hgc;
    cbn [mbind Res_bind] in Hok; try discriminate.
  rewrite (GenCache_Groups _ _ _ Hgc), SetDefault_Groups in Hok.
  destruct (conf.build_groups env (map_to_list (conf.Groups config)) ∅) as [m| |] eqn:Hb;
    cbn [mbind Res_bind] in Hok; try discriminate.
  destruct (conf.check_groups m) as [[]| |] eqn:Hcg; cbn [mbind Res_bind] in Hok;
    try discriminate.
  injection Hok as <-. rewrite (GenCache_Listen _ _ _ Hgc).
  exists config, text, cidrs, c', dc, m. repeat split; assumption.
Qed.

(** X1: A successful [NewHandler] implies a file whose [clean] and [dirty]
    groups both exist and both yield at least one caller. *)
Theorem NewHandler_ok_requires_clean_dirty (env : conf.Env) (fn : string)
    (h : inbound.Handler) (Hok : conf.NewHandler env fn = Ok h) :
  exists config gc gd, conf.env_toml env fn = Some config /\
    conf.Groups config !! "clean" = Some gc /\ conf.GenCallers gc <> [] /\
    conf.Groups config !! "dirty" = Some gd /\ conf.GenCallers gd <> [].
Proof.
  destruct (NewHandler_ok_inv _ _ _ Hok)
    as (config & text & cidrs & c' & dc & m & Ht & _ & _ & _ & Hb & Hc & _).
  destruct (check_groups_ok_inv _ Hc) as (c & d & Hmc & Hcn & Hmd & Hdn).
  destruct (build_groups_lookup _ _ _ _ Hb _ _ Hmc) as [He|(gc & ipc & Hinc & _ & ->)];
    [rewrite lookup_empty in He; discriminate|].
  destruct (build_groups_lookup _ _ _ _ Hb _ _ Hmd) as [He|(gd & ipd & Hind & _ & ->)];
    [rewrite lookup_empty in He; discriminate|].
  apply map_to_list_In in Hinc, Hind.
  exists config, gc, gd. repeat split; assumption.
Qed.

Lemma NewHandler_ok_requires_clean_dirty_witness :
  exists h, conf.NewHandler (fixtures.sample_env fixtures.sample_conf) "ts-dns.toml" = Ok h /\
  exists config gc gd,
    conf.env_toml (fixtures.sample_env fixtures.sample_conf) "ts-dns.toml" = Some config /\
    conf.Groups config !! "clean" = Some gc /\ conf.GenCallers gc <> [] /\
    conf.Groups config !! "dirty" = Some gd /\ conf.GenCallers gd <> [].
Proof.
  case_eq (conf.NewHandler (fixtures.sample_env fixtures.sample_conf) "ts-dns.toml").
  - intros h Hh. exists h. split; [reflexivity|].
    exact (NewHandler_ok_requires_clean_dirty _ _ h Hh).
  - intros e He. vm_compute in He. discriminate.
  - intros e He. vm_compute in He. discriminate.
Defined.

(** X2: The handler of a successful [NewHandler] holds exactly the configured
    groups: a name absent from the file is absent from the handler, and
    each configured group is there with the callers [GenCallers] built,
    its [concurrent] flag and the ipset [GenIPSet] created for it. *)
Theorem NewHandler_ok_groups (env : conf.Env) (fn : string) (config : conf.Conf)
    (h : inbound.Handler)
    (Htoml : conf.env_toml env fn = Some config)
    (Hok : conf.NewHandler env fn = Ok h) :
  forall n,
    (conf.Groups config !! n = None -> inbound.Groups h !! n = None) /\
    (forall g, conf.Groups config !! n = Some g ->
       exists hg ips, inbound.Groups h !! n = Some hg /\
         inbound.Callers hg = conf.GenCallers g /\
         inbound.Concurrent hg = conf.Concurrent g /\
         conf.GenIPSet env g = Ok ips /\ inbound.IPSet hg = ips).
Proof.
  destruct (NewHandler_ok_inv _ _ _ Hok)
    as (config' & text & cidrs & c' & dc & m & Ht & _ & _ & _ & Hb & _ & ->).
  rewrite Htoml in Ht. injection Ht as <-.
  destruct (build_groups_ok_inv _ _ _ _ Hb (NoDup_fst_map_to_list _)) as [Hin Hout].
  intros n. split; cbn.
  - intros Hn. rewrite Hout by (apply map_to_list_fst_None; exact Hn).
    apply lookup_empty.
  - intros g Hg. apply map_to_list_In in Hg.
    destruct (Hin n g Hg) as (ips & Hips & Hm).
    exists (conf.handler_group g ips), ips. repeat split; assumption.
Qed.

Lemma NewHandler_ok_groups_witness :
  exists h, conf.NewHandler (fixtures.sample_env fixtures.sample_conf) "ts-dns.toml" = Ok h /\
  forall n,
    (conf.Groups fixtures.sample_conf !! n = None -> inbound.Groups h !! n = None) /\
    (forall g, conf.Groups fixtures.sample_conf !! n = Some g ->
       exists hg ips, inbound.Groups h !! n = Some hg /\
         inbound.Callers hg = conf.GenCallers g /\
         inbound.Concurrent hg = conf.Concurrent g /\
         conf.GenIPSet (fixtures.sample_env fixtures.sample_conf) g = Ok ips /\
         inbound.IPSet hg = ips).
Proof.
  case_eq (conf.NewHandler (fixtures.sample_env fixtures.sample_conf) "ts-dns.toml").
  - intros h Hh. exists h. split; [reflexivity|].
    exact (NewHandler_ok_groups (fixtures.sample_env fixtures.sample_conf) "ts-dns.toml"
             fixtures.sample_conf h eq_refl Hh).
  - intros e He. vm_compute in He. discriminate.
  - intros e He. vm_compute in He. discriminate.
Defined.

(** X3: The files are read in a fixed order and the first failure is the
    result: an unreadable config file, then the gfwlist (at the defaulted
    path), then the CN-IP list; none of these depends on the [cache]
    section or the groups. *)
Theorem NewHandler_load_order (env : conf.Env) (fn : string) :
  (conf.env_toml env fn = None -> conf.NewHandler env fn = Err "read config error") /\
  (forall config, conf.env_toml env fn = Some config ->
     conf.env_gfwlist env (conf.GFWList (conf.SetDefault config)) = None ->
     conf.NewHandler env fn = Err "read gfwlist error") /\
  (forall config text, conf.env_toml env fn = Some config ->
     conf.env_gfwlist env (conf.GFWList (conf.SetDefault config)) = Some text ->
     conf.env_cnip env (conf.CNIP (conf.SetDefault config)) = None ->
     conf.NewHandler env fn = Err "read cnip error").
Proof.
  unfold conf.NewHandler, conf.NewABPByFile, conf.NewRamSetByFile.
  split; [intros ->; reflexivity|].
  split; [intros config -> ->; reflexivity|].
  intros config text -> -> ->. reflexivity.
Qed.

(** X4: A file without a [cache] section makes [NewHandler] panic once the
    gfwlist and CN-IP files are read: [GenCache] dereferences the nil
    [conf.Cache]. *)
Theorem NewHandler_no_cache_panics (env : conf.Env) (fn : string) (config : conf.Conf)
    (text cidrs : string)
    (Htoml : conf.env_toml env fn = Some config)
    (Hgfw : conf.env_gfwlist env (conf.GFWList (conf.SetDefault config)) = Some text)
    (Hcnip : conf.env_cnip env (conf.CNIP (conf.SetDefault config)) = Some cidrs)
    (Hcache : conf.Cache config = None) :
  conf.NewHandler env fn = Panic "invalid memory address or nil pointer dereference".
Proof.
  unfold conf.NewHandler. rewrite Htoml.
  unfold conf.NewABPByFile. rewrite Hgfw. unfold conf.NewRamSetByFile. rewrite Hcnip.
  cbn [mbind Res_bind]. unfold conf.GenCache. rewrite SetDefault_Cache, Hcache.
  reflexivity.
Qed.

Lemma NewHandler_no_cache_panics_witness :
  conf.NewHandler (fixtures.sample_env fixtures.no_cache_conf) "ts-dns.toml" =
    Panic "invalid memory address or nil pointer dereference".
Proof.
  exact (NewHandler_no_cache_panics (fixtures.sample_env fixtures.no_cache_conf)
           "ts-dns.toml" fixtures.no_cache_conf "google.com" "1.0.0.0/24"
           eq_refl eq_refl eq_refl eq_refl).
Defined.

(** X5: When a configured group names an ipset the kernel refuses to create,
    [NewHandler] returns an error (once the files are read and the
    [cache] section exists), whatever the other groups hold. *)
Theorem NewHandler_ipset_error (env : conf.Env) (fn : string) (config : conf.Conf)
    (text cidrs : string) (cc : conf.CacheT) (n : string) (g : conf.Group)
    (Htoml : conf.env_toml env fn = Some config)
    (Hgfw : conf.env_gfwlist env (conf.GFWList (conf.SetDefault config)) = Some text)
    (Hcnip : conf.env_cnip env (conf.CNIP (conf.SetDefault config)) = Some cidrs)
    (Hcache : conf.Cache config = Some cc)
    (Hg : conf.Groups config !! n = Some g)
    (Hname : conf.IPSet g <> "")
    (Hfail : conf.env_ipset env (conf.IPSet g) (conf.IPSetTTL g) = false) :
  exists e, conf.NewHandler env fn = Err e.
Proof.
  destruct (NewHandler_steps env fn config text cidrs cc Htoml Hgfw Hcnip Hcache)
    as [dc ->].
  assert (He : conf.GenIPSet env g = Err "ipset: cannot create set").
  { destruct (GenIPSet_cases env g) as [[He _]|[[_ [Ht _]]|[_ [_ H]]]];
      [contradiction|congruence|exact H]. }
  apply map_to_list_In in Hg.
  destruct (build_groups_err env _ ∅ n g _ Hg He) as [e ->].
  exists e. reflexivity.
Qed.

Lemma NewHandler_ipset_error_witness :
  exists e, conf.NewHandler (fixtures.env_without_ipset fixtures.sample_conf) "ts-dns.toml" =
    Err e.
Proof.
  exact (NewHandler_ipset_error (fixtures.env_without_ipset fixtures.sample_conf)
           "ts-dns.toml" fixtures.sample_conf "google.com" "1.0.0.0/24"
           (fixtures.cache_section 4096) "dirty" fixtures.dirty_group
           eq_refl eq_refl eq_refl eq_refl eq_refl ltac:(discriminate) eq_refl).
Defined.







(* ------------------------------------------------------------------ *)
(** ** Callers, cache parameters and the texts built by the loader *)

Lemma flat_map_length_le {A B} (f : A -> list B) (l : list A) :
  (forall x, (length (f x) <= 1)%nat) -> (length (flat_map f l) <= length l)%nat.
Proof.
  intros Hf. induction l as [|x l IH]; cbn; [lia|].
  rewrite length_app. specialize (Hf x). lia.
Qed.

Lemma dns_callers_length (d : option string) (addr : string) :
  (length (conf.dns_callers d addr) <= 1)%nat.
Proof.
  unfold conf.dns_callers. destruct (gostrings.HasSuffix addr "/tcp");
    match goal with |- context [if negb (String.eqb ?x "") then _ else _] =>
      destruct (String.eqb x "") end; cbn; lia.
Qed.

Lemma dot_callers_length (d : option string) (addr : string) :
  (length (conf.dot_callers d addr) <= 1)%nat.
Proof.
  unfold conf.dot_callers.
  destruct (gostrings.Split addr "@") as [|a0 [|sn0 [|? ?]]]; cbn; try lia.
  destruct (negb (String.eqb a0 "") && negb (String.eqb sn0 "")); cbn; lia.
Qed.

Lemma doh_callers_length (d : option string) (addr : string) :
  (length (conf.doh_callers d addr) <= 1)%nat.
Proof.
  unfold conf.doh_callers. destruct (regexp.MatchString conf.dohReg addr); cbn; lia.
Qed.

(** X9: Every caller [GenCallers] builds for a group, plain DNS, DoT and DoH
    alike, goes through the group's dialer, which is the SOCKS5 proxy when
    [socks5] is set and nil otherwise; and each configured address yields
    at most one caller. *)
Theorem GenCallers_dialer_count (g : conf.Group) :
  (forall c, In c (conf.GenCallers g) ->
     match c with
     | outbound.DNSCaller _ _ d | outbound.DoTCaller _ _ d | outbound.DoHCaller _ d =>
         d = conf.dialer_of g
     end) /\
  (conf.dialer_of g = None <-> conf.Socks5 g = "") /\
  (conf.Socks5 g <> "" -> conf.dialer_of g = Some (conf.Socks5 g)) /\
  (length (conf.GenCallers g) <=
     length (conf.DNS g) + length (conf.DoT g) + length (conf.DoH g))%nat.
Proof.
  split; [|split; [|split]].
  - intros c Hc. unfold conf.GenCallers in Hc. rewrite !in_app_iff, !in_flat_map in Hc.
    destruct Hc as [(a & _ & Ha)|[(a & _ & Ha)|(a & _ & Ha)]].
    + apply dns_callers_shape in Ha as (x & y & ->). reflexivity.
    + apply dot_callers_shape in Ha as (x & y & ->). reflexivity.
    + apply doh_callers_shape in Ha as ->. reflexivity.
  - unfold conf.dialer_of. destruct (String.eqb_spec (conf.Socks5 g) "");
      split; intros H; congruence.
  - unfold conf.dialer_of. destruct (String.eqb_spec (conf.Socks5 g) ""); congruence.
  - unfold conf.GenCallers. rewrite !length_app.
    pose proof (flat_map_length_le _ (conf.DNS g) (dns_callers_length (conf.dialer_of g))).
    pose proof (flat_map_length_le _ (conf.DoT g) (dot_callers_length (conf.dialer_of g))).
    pose proof (flat_map_length_le _ (conf.DoH g) (doh_callers_length (conf.dialer_of g))).
    lia.
Qed.

Lemma Z_default_nonzero (x d : Z) : d <> 0 -> ((if x =? 0 then d else x) =? 0) = false.
Proof. intros Hd. destruct (Z.eqb_spec x 0); apply Z.eqb_neq; lia. Qed.

(** X10: [GenCache] leaves no cache parameter at zero and writes them back:
    running it again on the configuration it returns changes nothing and
    builds the same cache. *)
Theorem GenCache_idempotent (c c' : conf.Conf) (dc : cache.DNSCache)
    (H : conf.GenCache c = Ok (c', dc)) :
  conf.GenCache c' = Ok (c', dc) /\
  exists cc, conf.Cache c' = Some cc /\
    conf.Size cc <> 0 /\ conf.MinTTL cc <> 0 /\ conf.MaxTTL cc <> 0.
Proof.
  destruct (conf.Cache c) as [cc|] eqn:Hc;
    [|unfold conf.GenCache in H; rewrite Hc in H; discriminate].
  rewrite (GenCache_result c cc Hc) in H. injection H as <- <-.
  erewrite GenCache_result by reflexivity. cbn [conf.Size conf.MinTTL conf.MaxTTL].
  rewrite !Z_default_nonzero by discriminate.
  split; [reflexivity|]. eexists. split; [reflexivity|]. cbn.
  destruct (Z.eqb_spec (conf.Size cc) 0), (Z.eqb_spec (conf.MinTTL cc) 0),
    (Z.eqb_spec (conf.MaxTTL cc) 0); lia.
Qed.

Lemma GenCache_idempotent_witness :
  exists c' dc, conf.GenCache (fixtures.with_groups 0 ∅) = Ok (c', dc) /\
  conf.GenCache c' = Ok (c', dc) /\
  exists cc, conf.Cache c' = Some cc /\
    conf.Size cc <> 0 /\ conf.MinTTL cc <> 0 /\ conf.MaxTTL cc <> 0.
Proof.
  eexists _, _. split; [reflexivity|].
  apply (GenCache_idempotent (fixtures.with_groups 0 ∅)). reflexivity.
Defined.

(** X11: The TTL bounds [time.Duration(x) * time.Second] are 64-bit products:
    the result is always an [int64], equal to [x] seconds in nanoseconds
    exactly when that product fits, and it wraps around beyond (a
    [min_ttl] or [max_ttl] of 9223372037 seconds gives a negative
    duration). *)
Theorem duration_seconds_wraps (x : Z) :
  (-2^63 <= conf.duration_seconds x < 2^63) /\
  (conf.duration_seconds x = x * cache.second <-> -2^63 <= x * cache.second < 2^63) /\
  conf.duration_seconds 9223372036 = 9223372036 * cache.second /\
  conf.duration_seconds 9223372037 < 0.
Proof.
  assert (Hb : forall y, -2^63 <= conf.wrap64 y < 2^63).
  { intros y. unfold conf.wrap64.
    pose proof (Z.mod_pos_bound y (2^64) ltac:(lia)).
    destruct (Z.leb_spec (2^63) (y mod 2^64)); lia. }
  split; [apply Hb|]. split; [|split; vm_compute; reflexivity].
  unfold conf.duration_seconds. set (y := x * cache.second). split.
  - intros <-. apply Hb.
  - intros Hy. unfold conf.wrap64.
    destruct (Z.leb_spec 0 y) as [Hp|Hn].
    + rewrite Z.mod_small by lia. destruct (Z.leb_spec (2^63) y); lia.
    + rewrite <- (Z.mod_unique y (2^64) (-1) (y + 2^64)) by lia.
      destruct (Z.leb_spec (2^63) (y + 2^64)); lia.
Qed.

Lemma Split_app_sep (a b : string) (c : ascii) :
  ~ In c (las a) -> gostrings.Split (a +:+ String c b) c = a :: gostrings.Split b c.
Proof.
  induction a as [|x a IH]; intros Ha; simpl.
  - rewrite Ascii.eqb_refl. reflexivity.
  - cbn in Ha. destruct (Ascii.eqb_spec x c) as [->|Hne]; [tauto|].
    rewrite IH by tauto. reflexivity.
Qed.

(** [strings.Split] undoes [strings.Join] with a one-byte separator that
    occurs in no element. *)
Lemma Split_Join (l : list string) (c : ascii) :
  l <> [] -> Forall (λ s, ~ In c (las s)) l ->
  gostrings.Split (gostrings.Join l (String c EmptyString)) c = l.
Proof.
  induction l as [|e [|e' l] IH]; intros Hne Hf; [contradiction| |].
  - apply Forall_cons in Hf as [He _]. apply Split_one. auto.
  - apply Forall_cons in Hf as [He Hf].
    assert (Hj : gostrings.Join (e :: e' :: l) (String c EmptyString) =
                 e +:+ String c (gostrings.Join (e' :: l) (String c EmptyString)))
      by reflexivity.
    rewrite Hj, Split_app_sep by exact He. f_equal.
    apply IH; [discriminate|exact Hf].
Qed.

Lemma newline_not_space : " "%char <> regexp.newline.
Proof. discriminate. Qed.

(** X12: The inline [hosts] map becomes one text reader, first in the list,
    whose text has one line [ip hostname] per entry of the map and no
    other line, provided no hostname or address holds a newline. *)
Theorem GenHostsReader_inline_lines (env : conf.Env) (c : conf.Conf)
    (Hne : conf.Hosts c <> ∅)
    (Hnl : forall hn ip, conf.Hosts c !! hn = Some ip ->
             ~ In regexp.newline (las hn) /\ ~ In regexp.newline (las ip)) :
  exists text rest, conf.GenHostsReader env c = hosts.TextReader text :: rest /\
    length (gostrings.Split text regexp.newline) = size (conf.Hosts c) /\
    forall line, In line (gostrings.Split text regexp.newline) <->
      exists hn ip, conf.Hosts c !! hn = Some ip /\ line = ip +:+ " " +:+ hn.
Proof.
  unfold conf.GenHostsReader.
  set (lines := (λ '(hostname, ip), ip +:+ " " +:+ hostname) <$> map_to_list (conf.Hosts c)).
  assert (Hlen : length lines = size (conf.Hosts c))
    by (unfold lines; rewrite length_fmap; apply length_map_to_list).
  assert (Hpos : (0 < length lines)%nat).
  { rewrite Hlen. apply map_size_non_empty_iff in Hne. lia. }
  assert (Hsplit : gostrings.Split (gostrings.Join lines matcher.newline_str)
                     regexp.newline = lines).
  { apply Split_Join; [intros E; rewrite E in Hpos; cbn in Hpos; lia|].
    apply Forall_forall. intros line Hin.
    unfold lines in Hin.
    apply list_elem_of_fmap in Hin as ([hn ip] & -> & Hin).
    apply elem_of_map_to_list in Hin. destruct (Hnl hn ip Hin) as [Hh Hi].
    rewrite !las_app, !in_app_iff. cbn.
    intros [H|[[H|[]]|H]]; [exact (Hi H)|exact (newline_not_space H)|exact (Hh H)]. }
  destruct (Nat.ltb_spec 0 (length lines)) as [_|Hz]; [|lia].
  eexists _, _. split; [reflexivity|]. rewrite Hsplit. split; [exact Hlen|].
  intros line. rewrite <- list_elem_of_In. unfold lines. rewrite list_elem_of_fmap.
  split.
  - intros ([hn ip] & -> & Hin). apply elem_of_map_to_list in Hin. eauto.
  - intros (hn & ip & Hin & ->). exists (hn, ip). split; [reflexivity|].
    apply elem_of_map_to_list. exact Hin.
Qed.

Lemma GenHostsReader_inline_lines_witness :
  exists text rest,
    conf.GenHostsReader (fixtures.sample_env fixtures.sample_conf) fixtures.sample_conf =
      hosts.TextReader text :: rest /\
    length (gostrings.Split text regexp.newline) = size (conf.Hosts fixtures.sample_conf) /\
    forall line, In line (gostrings.Split text regexp.newline) <->
      exists hn ip, conf.Hosts fixtures.sample_conf !! hn = Some ip /\
        line = ip +:+ " " +:+ hn.
Proof.
  apply GenHostsReader_inline_lines.
  - vm_compute. discriminate.
  - intros hn ip H. unfold fixtures.sample_conf, fixtures.with_groups, conf.Hosts,
      fixtures.sample_hosts in H.
    destruct (decide (hn = "example.com")) as [->|Hne1];
      [rewrite lookup_insert_eq in H; injection H as <-; split; cbn; intuition discriminate|].
    rewrite lookup_insert_ne in H by congruence.
    destruct (decide (hn = "cloudflare-dns.com")) as [->|Hne2];
      [rewrite lookup_insert_eq in H; injection H as <-; split; cbn; intuition discriminate|].
    rewrite lookup_insert_ne, lookup_empty in H by congruence. discriminate.
Defined.

(** X13: The text a group's matcher is built from has one line per rule of
    the group, in order, provided no rule holds a newline. *)
Theorem group_rules_text_lines (g : conf.Group) (ips : option ipset.IPSet)
    (Hne : conf.Rules g <> [])
    (Hnl : Forall (λ r, ~ In regexp.newline (las r)) (conf.Rules g)) :
  inbound.Matcher (conf.handler_group g ips) =
    matcher.NewABPByText (gostrings.Join (conf.Rules g) matcher.newline_str) /\
  gostrings.Split (gostrings.Join (conf.Rules g) matcher.newline_str) regexp.newline =
    conf.Rules g.
Proof.
  split; [reflexivity|]. apply Split_Join; assumption.
Qed.

Lemma group_rules_text_lines_witness :
  inbound.Matcher (conf.handler_group fixtures.clean_group None) =
    matcher.NewABPByText (gostrings.Join (conf.Rules fixtures.clean_group) matcher.newline_str) /\
  gostrings.Split (gostrings.Join (conf.Rules fixtures.clean_group) matcher.newline_str)
    regexp.newline = conf.Rules fixtures.clean_group.
Proof.
  apply group_rules_text_lines.
  - discriminate.
  - repeat constructor; cbn; intuition discriminate.
Defined.

(** X14: A successful [NewHandler] listens on the file's [listen] address, or
    on [:53] when it is empty, and holds a new cache built from the file's
    [cache] section with the zero parameters replaced by their defaults. *)
Theorem NewHandler_ok_listen_cache (env : conf.Env) (fn : string) (config : conf.Conf)
    (h : inbound.Handler)
    (Htoml : conf.env_toml env fn = Some config)
    (Hok : conf.NewHandler env fn = Ok h) :
  inbound.Listen h =
    (if String.eqb (conf.Listen config) "" then ":53" else conf.Listen config) /\
  exists cc, conf.Cache config = Some cc /\
    inbound.Cache h =
      cache.NewDNSCache
        (if conf.Size cc =? 0 then 4096 else conf.Size cc)
        (conf.duration_seconds (if conf.MinTTL cc =? 0 then 60 else conf.MinTTL cc))
        (conf.duration_seconds (if conf.MaxTTL cc =? 0 then 86400 else conf.MaxTTL cc)).
Proof.
  destruct (NewHandler_ok_inv _ _ _ Hok)
    as (config' & text & cidrs & c' & dc & m & Ht & _ & _ & Hgc & _ & _ & ->).
  rewrite Htoml in Ht. injection Ht as <-. cbn.
  split; [apply SetDefault_fields|].
  destruct (conf.Cache config) as [cc|] eqn:Hc.
  - rewrite (GenCache_result (conf.SetDefault config) cc)
      in Hgc by (rewrite SetDefault_Cache; exact Hc).
    injection Hgc as _ <-. exists cc. split; reflexivity.
  - unfold conf.GenCache in Hgc. rewrite SetDefault_Cache, Hc in Hgc. discriminate.
Qed.

Lemma NewHandler_ok_listen_cache_witness :
  exists h, conf.NewHandler (fixtures.sample_env fixtures.sample_conf) "ts-dns.toml" = Ok h /\
  inbound.Listen h =
    (if String.eqb (conf.Listen fixtures.sample_conf) "" then ":53"
     else conf.Listen fixtures.sample_conf) /\
  exists cc, conf.Cache fixtures.sample_conf = Some cc /\
    inbound.Cache h =
      cache.NewDNSCache
        (if conf.Size cc =? 0 then 4096 else conf.Size cc)
        (conf.duration_seconds (if conf.MinTTL cc =? 0 then 60 else conf.MinTTL cc))
        (conf.duration_seconds (if conf.MaxTTL cc =? 0 then 86400 else conf.MaxTTL cc)).
Proof.
  case_eq (conf.NewHandler (fixtures.sample_env fixtures.sample_conf) "ts-dns.toml").
  - intros h Hh. exists h. split; [reflexivity|].
    exact (NewHandler_ok_listen_cache (fixtures.sample_env fixtures.sample_conf)
             "ts-dns.toml" fixtures.sample_conf h eq_refl Hh).
  - intros e He. vm_compute in He. discriminate.
  - intros e He. vm_compute in He. discriminate.
Defined.
